(** * The symbol scanner of the market-scanner server

    A shallow embedding of the [SymbolScanner] class found in
    [src/server.js] (the long-polling server) and in
    [src/unnamed/part_000] (the symbols-API server).  The two classes
    are textually identical except for the finalisation branch of
    [processMinute]; the shared methods are embedded once and the two
    [processMinute] bodies live in the modules [Server] and [Part000].

    - JavaScript numbers are IEEE-754 binary64 values: they are Rocq's
      primitive floats, so every arithmetic operation below rounds
      exactly as the program does.
    - [Date] objects are compared and subtracted through their time
      value, an integral number of milliseconds: they are [Z].
    - A JavaScript [Map] iterates in insertion order and [set] on an
      existing key keeps the key's position: it is an association list
      ([JSMap]).
    - Each tick of the 1 Hz driver is run to completion before the next
      one; what the outside world answers to a tick (clock readings and
      the replies of the market-data source) is the tick's [Env]. *)

From Stdlib Require Import List String Ascii ZArith NArith Bool Lia.
From Stdlib Require Import Floats DecimalString Permutation.
Import ListNotations.

Set Warnings "-inexact-float".

Local Open Scope string_scope.
Local Open Scope list_scope.
Local Open Scope Z_scope.

(** ** JavaScript built-ins used by the scanner *)

Module JS.

(** [ToNumber(undefined)] is NaN; [Map.prototype.get] yields
    [undefined] on a missing key. *)
Definition toNumber (v : option float) : float :=
  match v with
  | Some x => x
  | None => nan
  end.

(** [a >= b], [a > b] and [a < b] on numbers. *)
Definition ge (a b : float) : bool := (b <=? a)%float.
Definition gt (a b : float) : bool := (b <? a)%float.
Definition lt (a b : float) : bool := (a <? b)%float.

(** The number of an array length or of another small integer. *)
Definition ofZ (z : Z) : float :=
  if z <? 0 then (- of_uint63 (Uint63.of_Z (- z)))%float
  else of_uint63 (Uint63.of_Z z).

Definition ofNat (n : nat) : float := ofZ (Z.of_nat n).

(** [Math.round]: the integral number closest to [x], ties going
    towards +∞; NaN, the infinities and the zeros are returned as they
    are and a result of magnitude zero keeps the sign of [x].  For a
    finite [x = ± m·2^e] with [e < 0] the result is
    [floor ((± 2m + 2^-e) / 2^(1-e))], computed in [Z]. *)
Definition Math_round (x : float) : float :=
  match Prim2SF x with
  | S754_finite s m e =>
      if 0 <=? e then x
      else
        let n := (2 * cond_Zopp s (Zpos m) + 2 ^ (- e)) / 2 ^ (1 - e) in
        if n =? 0 then (if s then neg_zero else zero) else ofZ n
  | _ => x
  end.

Definition Math_abs (x : float) : float := abs x.

(** [String.prototype.endsWith]. *)
Definition endsWith (s suffix : string) : bool :=
  let n := String.length s in
  let k := String.length suffix in
  (k <=? n)%nat && String.eqb (substring (n - k) k s) suffix.

(** Truthiness of a value that is [null] or a string. *)
Definition truthy (v : option string) : bool :=
  match v with
  | None => false
  | Some s => negb (String.eqb s "")
  end.

(** [Array.prototype.sort] with a comparison function.  The standard
    requires a stable sort and reads the comparator's result through
    its sign, NaN counting as zero.  It is modelled by the stable
    insertion sort: [a] is moved behind [b] exactly when
    [comparefn(a, b) > 0]. *)
Section Sort.
Context {A : Type}.
Variable comparefn : A -> A -> float.

Fixpoint sort_insert (a : A) (l : list A) : list A :=
  match l with
  | [] => [a]
  | b :: l' =>
      if gt (comparefn a b) 0 then b :: sort_insert a l'
      else a :: b :: l'
  end.

Definition sort (l : list A) : list A :=
  fold_right sort_insert [] l.
End Sort.

(** The result of [Number.prototype.toFixed]: a decimal numeral, or,
    for NaN, the infinities and magnitudes of 1e21 and above, the
    string [Number::toString] gives, which is kept symbolic for the
    large magnitudes. *)
Inductive numeral :=
| Digits (s : string)
| ToString (x : float).

Definition digit (n : N) : ascii :=
  ascii_of_N (48 + n mod 10).

(** The [k] low decimal digits of [n], zero padded. *)
Fixpoint fixed_width (k : nat) (n : N) : string :=
  match k with
  | O => ""
  | S k' => fixed_width k' (n / 10) ++ String (digit n) ""
  end.

Definition string_of_N (n : N) : string :=
  NilZero.string_of_uint (N.to_uint n).

(** [n / 10^f] written with [f] fraction digits. *)
Definition fixed_string (neg : bool) (n : N) (f : nat) : string :=
  let p := (10 ^ N.of_nat f)%N in
  (if neg then "-" else "") ++
  string_of_N (n / p) ++
  (match f with
   | O => ""
   | _ => "." ++ fixed_width f (n mod p)
   end).

(** [x.toFixed(f)] for [0 <= f <= 100]: with [x = ± m·2^e] the integer
    [n] for which [n / 10^f] is closest to [|x|], the larger one on a
    tie, is [floor (m·2^e·10^f + 1/2)]. *)
Definition toFixed (x : float) (f : nat) : numeral :=
  match Prim2SF x with
  | S754_nan => Digits "NaN"
  | S754_infinity s => Digits (if s then "-Infinity" else "Infinity")
  | S754_zero _ => Digits (fixed_string false 0 f)
  | S754_finite s m e =>
      if ge (abs x) 1e21 then ToString x
      else
        let p := 10 ^ Z.of_nat f in
        let n :=
          if 0 <=? e then Zpos m * 2 ^ e * p
          else (2 * Zpos m * p + 2 ^ (- e)) / 2 ^ (1 - e) in
        Digits (fixed_string s (Z.to_N n) f)
  end.

End JS.

(** ** A JavaScript [Map] keyed by strings *)

Module JSMap.

Definition t (V : Type) : Type := list (string * V).

Section Ops.
Context {V : Type}.

Definition empty : t V := [].

Fixpoint get (k : string) (m : t V) : option V :=
  match m with
  | [] => None
  | (k', v) :: m' => if String.eqb k k' then Some v else get k m'
  end.

Definition has (k : string) (m : t V) : bool :=
  match get k m with
  | Some _ => true
  | None => false
  end.

(** [set] overwrites in place, or appends a new key at the end. *)
Fixpoint set (k : string) (v : V) (m : t V) : t V :=
  match m with
  | [] => [(k, v)]
  | (k', v') :: m' =>
      if String.eqb k k' then (k', v) :: m' else (k', v') :: set k v m'
  end.

Definition entries (m : t V) : list (string * V) := m.

Definition keys (m : t V) : list string := map fst m.

(** No key occurs twice: what every [Map] satisfies. *)
Definition wf (m : t V) : Prop := NoDup (keys m).
End Ops.

End JSMap.

(** ** The data of the scanner *)

(** An element pushed on a symbol's price history. *)
Record PriceSample := {
  price : float;
  timestamp : Z
}.

(** The fields of [SymbolScanner] that the scanning methods read or
    write ([lastMinuteCheck], [isRunning] and [intervalId] belong to
    [start] and [stop] alone). *)
Record SymbolScanner := {
  priceHistory : JSMap.t (list PriceSample);
  volatilityScores : JSMap.t float;
  volumes : JSMap.t float;
  hasErrorThisMinute : bool
}.

(** The state the constructor builds. *)
Definition constructor : SymbolScanner := {|
  priceHistory := JSMap.empty;
  volatilityScores := JSMap.empty;
  volumes := JSMap.empty;
  hasErrorThisMinute := false
|}.

(** An element of [data.result.list].  [symbol] is [None] when the
    element has no string under that key, so that
    [ticker.symbol.endsWith] throws; the numeric fields hold what
    [parseFloat] makes of the element's strings. *)
Record Ticker := {
  symbol : option string;
  lastPrice : float;
  turnover24h : float;
  fundingRate : float
}.

(** What is thrown: the [name] and [code] that the handler of
    [fetchTickers] inspects. *)
Record JsError := {
  err_name : string;
  err_code : string
}.

Definition TypeError : JsError :=
  {| err_name := "TypeError"; err_code := "" |}.

(** The outcome of [fetch(...)] followed by [response.json()] and the
    access to [data.result.list]: something is thrown, or the list is
    there. *)
Inductive Snapshot :=
| Rejected (e : JsError)
| Resolved (list : list Ticker).

(** The object [findBestPerformer] returns. *)
Record PerformerResult := {
  res_symbol : option string;
  res_moves : float;
  res_hasError : bool
}.

(** The object handed to [emit('bestPerformerFound', ...)]; a key the
    object does not have is [None]. *)
Record Payload := {
  pl_symbol : option string;
  pl_moves : float;
  pl_hasError : option bool;
  pl_turnover : option JS.numeral;
  pl_fundingRate : option JS.numeral
}.

(** What a tick does, in order: the methods it calls, the snapshot it
    reads on its own and the event it emits. *)
Inductive Action :=
| CallReset
| CallFetchTickers
| CallCalculateVolatility
| CallFindBestPerformer
| ReadSnapshot
| Emit (p : Payload).

(** ** The methods shared by the two servers *)

Definition reset (st : SymbolScanner) : SymbolScanner := {|
  priceHistory := JSMap.empty;
  volatilityScores := JSMap.empty;
  volumes := JSMap.empty;
  hasErrorThisMinute := false
|}.

(** The body of the [forEach] callback of [fetchTickers]: [None] when
    it throws. *)
Definition ingest (currentTime : Z) (ticker : Ticker) (st : SymbolScanner)
  : option SymbolScanner :=
  match symbol ticker with
  | None => None
  | Some sym =>
      if JS.endsWith sym "USDT" then
        let price := lastPrice ticker in
        let volume := turnover24h ticker in
        let history :=
          if negb (JSMap.has sym (priceHistory st))
          then JSMap.set sym [] (priceHistory st)
          else priceHistory st in
        let history :=
          match JSMap.get sym history with
          | Some samples =>
              JSMap.set sym
                (samples ++ [{| price := price; timestamp := currentTime |}])
                history
          | None => history
          end in
        Some {| priceHistory := history;
                volatilityScores := volatilityScores st;
                volumes := JSMap.set sym volume (volumes st);
                hasErrorThisMinute := hasErrorThisMinute st |}
      else Some st
  end.

(** [data.result.list.forEach(...)]: the state reached and whether the
    callback threw on the way. *)
Fixpoint forEach_ingest (currentTime : Z) (l : list Ticker)
  (st : SymbolScanner) : SymbolScanner * option JsError :=
  match l with
  | [] => (st, None)
  | ticker :: l' =>
      match ingest currentTime ticker st with
      | None => (st, Some TypeError)
      | Some st' => forEach_ingest currentTime l' st'
      end
  end.

Definition set_hasError (b : bool) (st : SymbolScanner) : SymbolScanner := {|
  priceHistory := priceHistory st;
  volatilityScores := volatilityScores st;
  volumes := volumes st;
  hasErrorThisMinute := b
|}.

(** The two diagnostics of the handler of [fetchTickers]. *)
Definition isNetworkError (e : JsError) : bool :=
  String.eqb (err_name e) "AbortError"
  || String.eqb (err_code e) "ECONNRESET"
  || String.eqb (err_code e) "ETIMEDOUT".

(** [fetchTickers]: [response] is what the request of this call yields
    and [currentTime] the clock read after it.  Whatever is thrown
    inside the [try] is caught. *)
Definition fetchTickers (response : Snapshot) (currentTime : Z)
  (st : SymbolScanner) : SymbolScanner :=
  match response with
  | Rejected _ => set_hasError true st
  | Resolved l =>
      match forEach_ingest currentTime l st with
      | (st', None) => st'
      | (st', Some _) => set_hasError true st'
      end
  end.

(** The samples of the trailing minute: [prices.filter(...)]. *)
Definition relevantPrices (now : Z) (prices : list PriceSample)
  : list PriceSample :=
  let oneMinuteAgo := now - 60000 in
  filter (fun p => timestamp p >=? oneMinuteAgo) prices.

Definition undefinedSample : PriceSample :=
  {| price := nan; timestamp := 0 |}.

(** The [for] loop over [i = 1 .. length - 1]. *)
Definition totalMovement (rp : list PriceSample) : float :=
  fold_left
    (fun total i =>
       let movement :=
         JS.Math_abs (price (nth i rp undefinedSample)
                      - price (nth (i - 1) rp undefinedSample))%float in
       (total + movement)%float)
    (seq 1 (List.length rp - 1)) 0%float.

(** [reduce((sum, p) => sum + p.price, 0) / length]. *)
Definition averagePrice (rp : list PriceSample) : float :=
  (fold_left (fun sum p => sum + price p) rp 0 / JS.ofNat (List.length rp))%float.

Definition volatilityScore (rp : list PriceSample) : float :=
  (totalMovement rp / averagePrice rp * 100)%float.

(** One turn of the loop of [calculateVolatility]. *)
Definition scoreEntry (now : Z) (scores : JSMap.t float)
  (entry : string * list PriceSample) : JSMap.t float :=
  let '(sym, prices) := entry in
  let rp := relevantPrices now prices in
  if (List.length rp <? 2)%nat then scores
  else JSMap.set sym (volatilityScore rp) scores.

Definition calculateVolatility (now : Z) (st : SymbolScanner)
  : SymbolScanner := {|
  priceHistory := priceHistory st;
  volatilityScores :=
    fold_left (scoreEntry now) (JSMap.entries (priceHistory st)) JSMap.empty;
  volumes := volumes st;
  hasErrorThisMinute := hasErrorThisMinute st
|}.

Definition minVolume : float := 10000000%float.

(** The predicate of [.filter(...)] in [findBestPerformer]. *)
Definition passesFloor (st : SymbolScanner) (entry : string * float) : bool :=
  JS.ge (JS.toNumber (JSMap.get (fst entry) (volumes st))) minVolume.

(** The comparison function of [.sort(...)]. *)
Definition comparePairs (st : SymbolScanner) (a b : string * float) : float :=
  let '(symbolA, scoreA) := a in
  let '(symbolB, scoreB) := b in
  let scoreDiff := (scoreB - scoreA)%float in
  if JS.gt (JS.Math_abs scoreDiff) 0.0001 then scoreDiff
  else (JS.toNumber (JSMap.get symbolB (volumes st))
        - JS.toNumber (JSMap.get symbolA (volumes st)))%float.

(** [Array.from(...).filter(...)]: the pairs that pass the floor, in the
    iteration order of the score map. *)
Definition eligiblePairs (st : SymbolScanner) : list (string * float) :=
  filter (passesFloor st) (JSMap.entries (volatilityScores st)).

Definition topPairs (st : SymbolScanner) : list (string * float) :=
  JS.sort (comparePairs st) (eligiblePairs st).

Definition findBestPerformer (st : SymbolScanner) : PerformerResult :=
  match topPairs st with
  | [] =>
      {| res_symbol := None;
         res_moves := 0;
         res_hasError := hasErrorThisMinute st |}
  | (sym, score) :: _ =>
      {| res_symbol := Some sym;
         res_moves := JS.Math_round (score * 100);
         res_hasError := hasErrorThisMinute st |}
  end.

(** One turn of the loop of [cleanupOldData]. *)
Definition pruneEntry (now : Z) (history : JSMap.t (list PriceSample))
  (entry : string * list PriceSample) : JSMap.t (list PriceSample) :=
  let twoMinutesAgo := now - 120000 in
  let '(sym, prices) := entry in
  JSMap.set sym (filter (fun p => timestamp p >=? twoMinutesAgo) prices)
    history.

Definition cleanupOldData (now : Z) (st : SymbolScanner) : SymbolScanner := {|
  priceHistory :=
    fold_left (pruneEntry now) (JSMap.entries (priceHistory st))
      (priceHistory st);
  volatilityScores := volatilityScores st;
  volumes := volumes st;
  hasErrorThisMinute := hasErrorThisMinute st
|}.

(** ** One tick of the driver *)

(** What the world answers during one call of [processMinute]. *)
Record Env := {
  now : Z;               (* [new Date()] at the head of [processMinute] *)
  response : Snapshot;   (* the request made by [fetchTickers] *)
  currentTime : Z;       (* [new Date()] inside [fetchTickers] *)
  calcNow : Z;           (* [new Date()] inside [calculateVolatility] *)
  lookup : Snapshot      (* the request made while finalising *)
}.

(** [Date.prototype.getSeconds], for a time zone whose offset is a
    whole number of minutes. *)
Definition getSeconds (t : Z) : Z := (t / 1000) mod 60.

(** How the promise of [processMinute] settles, the scanner it leaves
    behind and what it did. *)
Record Tick := {
  rejected : option JsError;
  scanner : SymbolScanner;
  actions : list Action
}.

(** The first two [if]s of [processMinute], common to both servers. *)
Definition resetPhase (seconds : Z) (st : SymbolScanner)
  : SymbolScanner * list Action :=
  if seconds =? 0 then (reset st, [CallReset]) else (st, []).

Definition accumulatePhase (env : Env) (seconds : Z) (st : SymbolScanner)
  : SymbolScanner * list Action :=
  if seconds <? 59 then
    (calculateVolatility (calcNow env)
       (fetchTickers (response env) (currentTime env) st),
     [CallFetchTickers; CallCalculateVolatility])
  else (st, []).

(** [!result.hasError && result.symbol]. *)
Definition publishable (result : PerformerResult) : bool :=
  negb (res_hasError result) && JS.truthy (res_symbol result).

(** [src/server.js]. *)
Module Server.

Definition payload (result : PerformerResult) : Payload := {|
  pl_symbol := res_symbol result;
  pl_moves := res_moves result;
  pl_hasError := Some (res_hasError result);
  pl_turnover := None;
  pl_fundingRate := None
|}.

Definition finalizePhase (seconds : Z) (st : SymbolScanner) : list Action :=
  if seconds =? 59 then
    let result := findBestPerformer st in
    CallFindBestPerformer ::
    (if publishable result then [Emit (payload result)] else [])
  else [].

Definition processMinute (env : Env) (st : SymbolScanner) : Tick :=
  let seconds := getSeconds (now env) in
  let '(st1, a1) := resetPhase seconds st in
  let '(st2, a2) := accumulatePhase env seconds st1 in
  {| rejected := None;
     scanner := st2;
     actions := a1 ++ a2 ++ finalizePhase seconds st2 |}.

End Server.

(** [src/unnamed/part_000]. *)
Module Part000.

Definition payload (result : PerformerResult) (ticker : Ticker)
  : Payload := {|
  pl_symbol := res_symbol result;
  pl_moves := res_moves result;
  pl_hasError := None;
  pl_turnover := Some (JS.toFixed (turnover24h ticker / 1000000)%float 2);
  pl_fundingRate := Some (JS.toFixed (fundingRate ticker * 100)%float 4)
|}.

(** [t.symbol === result.symbol]. *)
Definition sameSymbol (result : PerformerResult) (t : Ticker) : bool :=
  match symbol t, res_symbol result with
  | Some a, Some b => String.eqb a b
  | _, _ => false
  end.

(** The branch for second 59: the error that escapes, if any, and
    what was done. *)
Definition finalizePhase (env : Env) (seconds : Z) (st : SymbolScanner)
  : option JsError * list Action :=
  if seconds =? 59 then
    let result := findBestPerformer st in
    if publishable result then
      match lookup env with
      | Rejected e => (Some e, [CallFindBestPerformer; ReadSnapshot])
      | Resolved l =>
          match find (sameSymbol result) l with
          | None =>
              (Some TypeError, [CallFindBestPerformer; ReadSnapshot])
          | Some ticker =>
              (None, [CallFindBestPerformer; ReadSnapshot;
                      Emit (payload result ticker)])
          end
      end
    else (None, [CallFindBestPerformer])
  else (None, []).

Definition processMinute (env : Env) (st : SymbolScanner) : Tick :=
  let seconds := getSeconds (now env) in
  let '(st1, a1) := resetPhase seconds st in
  let '(st2, a2) := accumulatePhase env seconds st1 in
  let '(err, a3) := finalizePhase env seconds st2 in
  {| rejected := err;
     scanner := st2;
     actions := a1 ++ a2 ++ a3 |}.

End Part000.

(** The driver of [start]: one tick per element of [envs].  The timer
    fires again whatever became of the previous promise. *)
Definition run (tick : Env -> SymbolScanner -> Tick) (envs : list Env)
  (st : SymbolScanner) : SymbolScanner :=
  fold_left (fun st env => scanner (tick env st)) envs st.

(** The states the methods can build from a fresh scanner. *)
Inductive reachable : SymbolScanner -> Prop :=
| reach_new : reachable constructor
| reach_reset st : reachable st -> reachable (reset st)
| reach_fetchTickers response currentTime st :
    reachable st -> reachable (fetchTickers response currentTime st)
| reach_calculateVolatility now st :
    reachable st -> reachable (calculateVolatility now st)
| reach_cleanupOldData now st :
    reachable st -> reachable (cleanupOldData now st)
| reach_tick_server env st :
    reachable st -> reachable (scanner (Server.processMinute env st))
| reach_tick_part000 env st :
    reachable st -> reachable (scanner (Part000.processMinute env st)).

(** ** Starting and stopping the driver *)

(** The timers of the runtime.  [setInterval] hands out a timer object
    that no earlier call handed out and [clearInterval] retires the one
    it is given; timer objects are truthy. *)
Record Timers := {
  activeTimers : list positive;
  nextTimer : positive
}.

Definition setInterval (w : Timers) : positive * Timers :=
  (nextTimer w,
   {| activeTimers := nextTimer w :: activeTimers w;
      nextTimer := Pos.succ (nextTimer w) |}).

Definition clearInterval (id : positive) (w : Timers) : Timers := {|
  activeTimers := filter (fun i => negb (Pos.eqb i id)) (activeTimers w);
  nextTimer := nextTimer w
|}.

(** The fields of [SymbolScanner] that [start] and [stop] use. *)
Record Driver := {
  isRunning : bool;
  intervalId : option positive
}.

(** What the constructor gives them. *)
Definition idle : Driver := {|
  isRunning := false;
  intervalId := None
|}.

Definition start (dw : Driver * Timers) : Driver * Timers :=
  let '(d, w) := dw in
  if negb (isRunning d) then
    let '(id, w') := setInterval w in
    ({| isRunning := true; intervalId := Some id |}, w')
  else (d, w).

Definition stop (dw : Driver * Timers) : Driver * Timers :=
  let '(d, w) := dw in
  match intervalId d with
  | Some id =>
      if isRunning d then
        ({| isRunning := false; intervalId := None |}, clearInterval id w)
      else (d, w)
  | None => (d, w)
  end.

(** ** Delivery of the events *)

Module JSValue.

(** Truthiness of a value that is [undefined] or a boolean. *)
Definition truthyBool (v : option bool) : bool :=
  match v with
  | Some b => b
  | None => false
  end.

(** [a || b] on numbers: [a] unless it is NaN or a zero. *)
Definition orNumber (a b : float) : float :=
  if is_nan a || (a =? 0)%float then b else a.

End JSValue.

(** The listener of [src/server.js] and its [/api/updates] handler. *)
Module LongPoll.

(** The module variable [lastUpdate]; [null] is [None]. *)
Record LastUpdate := {
  lu_symbol : option string;
  lu_moves : float;
  lu_timestamp : option Z
}.

Definition lastUpdate0 : LastUpdate := {|
  lu_symbol := None;
  lu_moves := 0;
  lu_timestamp := None
|}.

(** The listener of ['bestPerformerFound']; [dateNow] is [Date.now()]. *)
Definition onBestPerformerFound (dateNow : Z) (data : Payload)
  (lastUpdate : LastUpdate) : LastUpdate := {|
  lu_symbol := pl_symbol data;
  lu_moves := pl_moves data;
  lu_timestamp := Some dateNow
|}.

(** The handler of [GET /api/updates]: the JSON body, or [None] for the
    status 304.  [parsed] is [parseInt(req.query.lastUpdate)], NaN when
    there is nothing to parse. *)
Definition getUpdates (parsed : float) (lastUpdate : LastUpdate)
  : option LastUpdate :=
  let lastUpdateTime := JSValue.orNumber parsed 0 in
  match lu_timestamp lastUpdate with
  | Some ts =>
      if negb (ts =? 0) && JS.gt (JS.ofZ ts) lastUpdateTime
      then Some lastUpdate
      else None
  | None => None
  end.

(** [emit] calls the listener on each event of a tick, in order;
    [dateNow] is the clock the listener reads. *)
Definition deliver (dateNow : Z) (acts : list Action)
  (lastUpdate : LastUpdate) : LastUpdate :=
  fold_left
    (fun lu a =>
       match a with
       | Emit data => onBestPerformerFound dateNow data lu
       | _ => lu
       end)
    acts lastUpdate.

End LongPoll.

(** The listener of [src/unnamed/part_000] and its [/api/symbols]
    handler. *)
Module SymbolsApi.

Record SymbolData := {
  sd_symbol : option string;
  sd_moves : float;
  sd_turnover : option JS.numeral;
  sd_fundingRate : option JS.numeral;
  sd_timestamp : Z
}.

(** The module variables [currentSymbol] and [symbolHistory]. *)
Record Store := {
  currentSymbol : option SymbolData;
  symbolHistory : list SymbolData
}.

Definition store0 : Store := {|
  currentSymbol := None;
  symbolHistory := []
|}.

(** The two clock readings of the listener. *)
Record Clock := {
  created : Z;   (* [new Date()] of [symbolData.timestamp] *)
  dateNow : Z    (* [Date.now()] of the cut-off *)
}.

Definition onBestPerformerFound (clock : Clock) (data : Payload)
  (store : Store) : Store :=
  if JS.truthy (pl_symbol data)
     && negb (JSValue.truthyBool (pl_hasError data))
  then
    let symbolData :=
      {| sd_symbol := pl_symbol data;
         sd_moves := pl_moves data;
         sd_turnover := pl_turnover data;
         sd_fundingRate := pl_fundingRate data;
         sd_timestamp := created clock |} in
    let history := symbolData :: symbolHistory store in
    let twentyFourHoursAgo := dateNow clock - 24 * 60 * 60 * 1000 in
    {| currentSymbol := Some symbolData;
       symbolHistory :=
         filter (fun item => sd_timestamp item >? twentyFourHoursAgo)
           history |}
  else store.

(** The handler of [GET /api/symbols]: [current] and [history]. *)
Definition getSymbols (store : Store)
  : option SymbolData * list SymbolData :=
  (currentSymbol store, symbolHistory store).

Definition deliver (clock : Clock) (acts : list Action) (store : Store)
  : Store :=
  fold_left
    (fun st a =>
       match a with
       | Emit data => onBestPerformerFound clock data st
       | _ => st
       end)
    acts store.

(** The listener run on one event after another. *)
Definition deliverAll (events : list (Clock * Payload)) (store : Store)
  : Store :=
  fold_left (fun st ev => onBestPerformerFound (fst ev) (snd ev) st)
    events store.

End SymbolsApi.

(** * Vocabulary of the statements *)

(** ** The estimator's contract *)

(** The estimator in the words of its contract.  Sums run from zero in
    index order, the only order in which the rounded sums are those of
    the program. *)

Definition inWindow (now : Z) (p : PriceSample) : bool :=
  now - 60000 <=? timestamp p.

Definition windowSamples (now : Z) (prices : list PriceSample)
  : list PriceSample :=
  filter (inWindow now) prices.

Definition sumFromZero (l : list float) : float :=
  fold_left (fun acc x => acc + x)%float l 0%float.

(** [|p1 - p0|, |p2 - p1|, ...] *)
Fixpoint consecutiveMoves (ps : list float) : list float :=
  match ps with
  | a :: (b :: _) as tl => abs (b - a) :: consecutiveMoves tl
  | _ => []
  end.

Definition meanPrice (ps : list float) : float :=
  (sumFromZero ps / JS.ofNat (List.length ps))%float.

Definition windowScore (w : list PriceSample) : float :=
  let ps := map price w in
  (sumFromZero (consecutiveMoves ps) / meanPrice ps * 100)%float.

(** The score map [calculateVolatility] builds, entry by entry. *)
Definition scoredEntries (now : Z) (history : list (string * list PriceSample))
  : list (string * float) :=
  flat_map
    (fun entry =>
       let rp := relevantPrices now (snd entry) in
       if (List.length rp <? 2)%nat then []
       else [(fst entry, volatilityScore rp)])
    history.

(** ** Pruning, ticks and flags *)

(** A sample no older than 120 seconds. *)
Definition retained (now : Z) (p : PriceSample) : bool :=
  now - 120000 <=? timestamp p.

(** The scanner a tick leaves is the same in both servers. *)
Definition tickState (env : Env) (st : SymbolScanner) : SymbolScanner :=
  let s := getSeconds (now env) in
  let st1 := if s =? 0 then reset st else st in
  if s <? 59 then
    calculateVolatility (calcNow env)
      (fetchTickers (response env) (currentTime env) st1)
  else st1.

(** What one tick does, by the second it falls on. *)
Definition tickPhases (tick : Env -> SymbolScanner -> Tick)
  (env : Env) (st : SymbolScanner) : Prop :=
  let s := getSeconds (now env) in
  let acts := actions (tick env st) in
  let fetched st0 :=
    calculateVolatility (calcNow env)
      (fetchTickers (response env) (currentTime env) st0) in
  (s = 0 ->
   acts = [CallReset; CallFetchTickers; CallCalculateVolatility]
   /\ scanner (tick env st) = fetched (reset st))
  /\ (1 <= s <= 58 ->
      acts = [CallFetchTickers; CallCalculateVolatility]
      /\ scanner (tick env st) = fetched st)
  /\ (s = 59 ->
      (exists tail,
          acts = CallFindBestPerformer :: tail
          /\ forall a, In a tail -> a = ReadSnapshot \/ exists p, a = Emit p)
      /\ scanner (tick env st) = st)
  /\ (In CallFetchTickers acts <-> 0 <= s <= 58)
  /\ (In CallCalculateVolatility acts <-> 0 <= s <= 58)
  /\ (In CallReset acts <-> s = 0)
  /\ (In CallFindBestPerformer acts <-> s = 59).

(** The request of [fetchTickers] fails: something is thrown by the
    request itself or by the callback on an element without a symbol. *)
Definition fetchFails (response : Snapshot) : bool :=
  match response with
  | Rejected _ => true
  | Resolved l =>
      existsb (fun ticker =>
                 match symbol ticker with
                 | None => true
                 | Some _ => false
                 end) l
  end.

(** Every scored symbol and every sampled symbol has a volume. *)
Definition covered (st : SymbolScanner) : Prop :=
  (forall k, In k (JSMap.keys (volatilityScores st)) ->
             In k (JSMap.keys (volumes st)))
  /\ (forall k, In k (JSMap.keys (priceHistory st)) ->
                In k (JSMap.keys (volumes st))).

(** Every sampled symbol and every scored symbol ends in USDT. *)
Definition quotedInUSDT (st : SymbolScanner) : Prop :=
  (forall k, In k (JSMap.keys (priceHistory st)) ->
             JS.endsWith k "USDT" = true)
  /\ (forall k, In k (JSMap.keys (volatilityScores st)) ->
                JS.endsWith k "USDT" = true).

(** The three maps are [Map]s. *)
Definition wellFormed (st : SymbolScanner) : Prop :=
  JSMap.wf (priceHistory st)
  /\ JSMap.wf (volatilityScores st)
  /\ JSMap.wf (volumes st).



(** ** Numerals and binary64 *)






(** ** Sample scanners and replies *)

(** A scanner that has sampled one symbol three times. *)
Definition threeSamples (sym : string) (p1 p2 p3 : float) (t1 t2 t3 : Z)
  (volume : float) (err : bool) : SymbolScanner := {|
  priceHistory :=
    [(sym, [ {| price := p1; timestamp := t1 |};
             {| price := p2; timestamp := t2 |};
             {| price := p3; timestamp := t3 |} ])];
  volatilityScores := JSMap.empty;
  volumes := [(sym, volume)];
  hasErrorThisMinute := err
|}.

(** A scanner with two scored symbols, in the order given. *)
Definition twoScored (symA symB : string) (scoreA scoreB volA volB : float)
  (err : bool) : SymbolScanner := {|
  priceHistory := JSMap.empty;
  volatilityScores := [(symA, scoreA); (symB, scoreB)];
  volumes := [(symA, volA); (symB, volB)];
  hasErrorThisMinute := err
|}.

(** BUSDT and AUSDT score within 0.0001 of each other, CUSDT far
    below; AUSDT trades more than BUSDT. *)
Definition threeScored : SymbolScanner := {|
  priceHistory := JSMap.empty;
  volatilityScores := [("BUSDT", 2.00005); ("CUSDT", 1); ("AUSDT", 2)]%float;
  volumes := [("AUSDT", 30000000); ("BUSDT", 20000000);
              ("CUSDT", 90000000)]%float;
  hasErrorThisMinute := false
|}.

(** An environment in which every clock reading is [t]. *)
Definition envAt (t : Z) (fetched looked : Snapshot) : Env := {|
  now := t;
  response := fetched;
  currentTime := t;
  calcNow := t;
  lookup := looked
|}.

(** The reply with one quote of BTCUSDT. *)
Definition oneQuote (p volume : float) : Snapshot :=
  Resolved [ {| symbol := Some "BTCUSDT";
                lastPrice := p;
                turnover24h := volume;
                fundingRate := 0.0001 |} ].

(** The element for AUSDT of a reply: a turnover of 30,345,678.9 and
    a funding rate of 0.0001. *)
Definition quoteA : Ticker := {|
  symbol := Some "AUSDT";
  lastPrice := 105;
  turnover24h := 30345678.9;
  fundingRate := 0.0001
|}.

(** A connection reset, as [node-fetch] reports it. *)
Definition connectionReset : JsError :=
  {| err_name := "FetchError"; err_code := "ECONNRESET" |}.

(** The scanner after two fetches and an estimation. *)
Definition afterTwoFetches : SymbolScanner :=
  calculateVolatility 2000
    (fetchTickers (oneQuote 101 20000000) 2000
       (fetchTickers (oneQuote 100 19000000) 1000 constructor)).

(** ** Vocabulary of the further properties *)

(** The elements [forEach] gets through: those before the first one
    without a symbol. *)
Fixpoint ingested (l : list Ticker) : list Ticker :=
  match l with
  | [] => []
  | ticker :: l' =>
      match symbol ticker with
      | Some _ => ticker :: ingested l'
      | None => []
      end
  end.

(** [ticker] is a quote of [sym]. *)
Definition quotes (sym : string) (ticker : Ticker) : bool :=
  match symbol ticker with
  | Some s => String.eqb s sym
  | None => false
  end.

Definition sampleOf (t : Z) (ticker : Ticker) : PriceSample :=
  {| price := lastPrice ticker; timestamp := t |}.

(** The log of a symbol after the quotes [qs] were pushed at [t]. *)
Definition pushed (t : Z) (qs : list Ticker)
  (log : option (list PriceSample)) : option (list PriceSample) :=
  match qs with
  | [] => log
  | _ =>
      Some (match log with
            | Some samples => samples
            | None => []
            end ++ map (sampleOf t) qs)
  end.

(** The volume of a symbol after the quotes [qs] were stored. *)
Definition stored (qs : list Ticker) (volume : option float) : option float :=
  match rev qs with
  | [] => volume
  | ticker :: _ => Some (turnover24h ticker)
  end.

(** The list a reply hands to [forEach]; a failed request hands none. *)
Definition listed (response : Snapshot) : list Ticker :=
  match response with
  | Rejected _ => []
  | Resolved l => l
  end.

(** An entry of the price history with its log pruned. *)
Definition prunedEntry (now : Z) (entry : string * list PriceSample)
  : string * list PriceSample :=
  (fst entry, filter (retained now) (snd entry)).

Definition isEmit (a : Action) : bool :=
  match a with
  | Emit _ => true
  | _ => false
  end.




(** Every key of the three maps ends in USDT. *)
Definition onlyUSDT (st : SymbolScanner) : Prop :=
  forall k,
    In k (JSMap.keys (priceHistory st))
    \/ In k (JSMap.keys (volatilityScores st))
    \/ In k (JSMap.keys (volumes st)) ->
    JS.endsWith k "USDT" = true.

(** A polling page and the server agree: the page holds the time stamp
    of the update it last received, or 0 before the first one. *)
Definition inSync (lastUpdateTime : Z) (lastUpdate : LongPoll.LastUpdate)
  : Prop :=
  match LongPoll.lu_timestamp lastUpdate with
  | Some ts => lastUpdateTime = ts /\ 0 < ts
  | None => lastUpdateTime = 0
  end.

(** The update a finalized result becomes at time [t]. *)
Definition updateOf (t : Z) (result : PerformerResult)
  : LongPoll.LastUpdate := {|
  LongPoll.lu_symbol := res_symbol result;
  LongPoll.lu_moves := res_moves result;
  LongPoll.lu_timestamp := Some t
|}.

(** The listener's test on an event. *)
Definition accepted (data : Payload) : bool :=
  JS.truthy (pl_symbol data) && negb (JSValue.truthyBool (pl_hasError data)).

Definition symbolDataOf (ev : SymbolsApi.Clock * Payload)
  : SymbolsApi.SymbolData := {|
  SymbolsApi.sd_symbol := pl_symbol (snd ev);
  SymbolsApi.sd_moves := pl_moves (snd ev);
  SymbolsApi.sd_turnover := pl_turnover (snd ev);
  SymbolsApi.sd_fundingRate := pl_fundingRate (snd ev);
  SymbolsApi.sd_timestamp := SymbolsApi.created (fst ev)
|}.

Definition dayMs : Z := 24 * 60 * 60 * 1000.

Definition newerThan (cut : Z) (item : SymbolsApi.SymbolData) : bool :=
  SymbolsApi.sd_timestamp item >? cut.

(** The clock does not run backwards from one event to the next. *)
Fixpoint clockOrdered (t : Z) (events : list (SymbolsApi.Clock * Payload))
  : Prop :=
  match events with
  | [] => True
  | ev :: rest =>
      t <= SymbolsApi.dateNow (fst ev)
      /\ clockOrdered (SymbolsApi.dateNow (fst ev)) rest
  end.

(** The time of the last event taken, from [t] on. *)
Definition lastTaken (t : Z) (events : list (SymbolsApi.Clock * Payload))
  : Z :=
  fold_left
    (fun t ev => if accepted (snd ev) then SymbolsApi.dateNow (fst ev) else t)
    events t.

(** Calls of [start] and [stop] in some order. *)
Inductive Call := CallStart | CallStop.

Definition call (c : Call) (dw : Driver * Timers) : Driver * Timers :=
  match c with
  | CallStart => start dw
  | CallStop => stop dw
  end.

Definition calls (cs : list Call) (dw : Driver * Timers) : Driver * Timers :=
  fold_left (fun dw c => call c dw) cs dw.

(** No timer that is active is one [setInterval] has yet to hand out. *)
Definition handedOut (w : Timers) : Prop :=
  forall i, In i (activeTimers w) -> (i < nextTimer w)%positive.

(** What [start] and [stop] keep true of the scanner and of the timers
    of the rest of the program, [others]. *)
Definition timerInvariant (others : list positive) (dw : Driver * Timers)
  : Prop :=
  (forall i, In i others -> (i < nextTimer (snd dw))%positive)
  /\ match intervalId (fst dw) with
     | Some id =>
         isRunning (fst dw) = true
         /\ (id < nextTimer (snd dw))%positive
         /\ ~ In id others
         /\ activeTimers (snd dw) = id :: others
     | None =>
         isRunning (fst dw) = false
         /\ activeTimers (snd dw) = others
     end.

(** The promise of a tick of [src/unnamed/part_000] rejects with [e]:
    the snapshot read of second 59 fails with [e], or it arrives
    without the winner and reading a field of [undefined] throws. *)
Definition lookupFails (env : Env) (st : SymbolScanner) (e : JsError)
  : Prop :=
  lookup env = Rejected e
  \/ (e = TypeError
      /\ exists l,
          lookup env = Resolved l
          /\ find (Part000.sameSymbol (findBestPerformer st)) l = None).

(** A scanner that stays on a failed snapshot read of second 59. *)
Definition lookupDown : Env :=
  envAt 59000 (Resolved []) (Rejected connectionReset).

(** The scanner after one fetch of BTCUSDT at 100. *)
Definition afterOneFetch : SymbolScanner :=
  fetchTickers (oneQuote 100 19000000) 1000 constructor.

(** BTCUSDT sampled 150, 50 and 10 seconds before the instant 200000. *)
Definition oldAndNew : SymbolScanner :=
  threeSamples "BTCUSDT" 100 101 99 50000 150000 190000 20000000 false.

(** Two symbols that score the same to within 0.0001 and trade the
    same volume. *)
Definition evenPair : SymbolScanner :=
  twoScored "AUSDT" "BUSDT" 2 2.00005 20000000 20000000 false.




Definition secondLast : Env :=
  envAt 59000 (oneQuote 102 20000000) (oneQuote 102 20000000).

(** Second 59 with a reply that lists AUSDT. *)
Definition lastWithA : Env :=
  envAt 59000 (Resolved [quoteA]) (Resolved [quoteA]).

(** An event of [src/unnamed/part_000] received at [t]. *)
Definition eventAt (t : Z) : SymbolsApi.Clock * Payload :=
  ({| SymbolsApi.created := t; SymbolsApi.dateNow := t |},
   Part000.payload (findBestPerformer threeScored) quoteA).

(** Two timers of the rest of the program. *)
Definition twoTimers : Timers :=
  {| activeTimers := [1; 2]%positive; nextTimer := 3 |}.

(** * Properties *)

(** ** Maps *)

Module JSMapFacts.
Import JSMap.

Section Facts.
Context {V : Type}.
Implicit Types (m : t V) (k : string) (v : V).

Lemma get_set_same k v m : get k (set k v m) = Some v.
Proof.
  induction m as [|[k' v'] m IH]; simpl.
  - now rewrite String.eqb_refl.
  - destruct (String.eqb k k') eqn:E; simpl; rewrite E; auto.
Qed.

Lemma get_set_other k k' v m :
  k <> k' -> get k' (set k v m) = get k' m.
Proof.
  intros Hne.
  induction m as [|[k0 v0] m IH]; simpl.
  - destruct (String.eqb k' k) eqn:E; auto.
    apply String.eqb_eq in E. congruence.
  - destruct (String.eqb k k0) eqn:E; simpl.
    + apply String.eqb_eq in E. subst k0.
      destruct (String.eqb k' k) eqn:E'; auto.
      apply String.eqb_eq in E'. congruence.
    + now rewrite IH.
Qed.

Lemma get_None_keys k m : get k m = None <-> ~ In k (keys m).
Proof.
  induction m as [|[k' v'] m IH]; simpl.
  - tauto.
  - destruct (String.eqb k k') eqn:E.
    + apply String.eqb_eq in E. subst. split; [discriminate | tauto].
    + apply String.eqb_neq in E. rewrite IH. split.
      * intros H [H1 | H1]; [congruence | tauto].
      * tauto.
Qed.

Lemma get_Some_In k v m : get k m = Some v -> In (k, v) m.
Proof.
  induction m as [|[k' v'] m IH]; simpl; [discriminate|].
  destruct (String.eqb k k') eqn:E.
  - apply String.eqb_eq in E. intros [= ->]. subst. now left.
  - auto.
Qed.

Lemma In_get_Some k v m : wf m -> In (k, v) m -> get k m = Some v.
Proof.
  unfold wf.
  induction m as [|[k' v'] m IH]; simpl; [tauto|].
  intros Hnd [H | H].
  - injection H as -> ->. now rewrite String.eqb_refl.
  - inversion Hnd as [|? ? Hnin Hnd']; subst.
    destruct (String.eqb k k') eqn:E.
    + apply String.eqb_eq in E. subst.
      exfalso. apply Hnin. now apply (in_map fst) in H.
    + auto.
Qed.

Lemma has_true k m : has k m = true <-> In k (keys m).
Proof.
  unfold has. destruct (get k m) eqn:E.
  - split; auto. intros _.
    apply get_Some_In in E. now apply (in_map fst) in E.
  - apply get_None_keys in E. split; [discriminate | tauto].
Qed.

Lemma set_fresh k v m : ~ In k (keys m) -> set k v m = m ++ [(k, v)].
Proof.
  induction m as [|[k' v'] m IH]; simpl; auto.
  intros Hnin.
  destruct (String.eqb k k') eqn:E.
  - apply String.eqb_eq in E. subst. tauto.
  - rewrite IH; tauto.
Qed.

Lemma keys_set_present k v m : In k (keys m) -> keys (set k v m) = keys m.
Proof.
  induction m as [|[k' v'] m IH]; simpl; [tauto|].
  intros Hin.
  destruct (String.eqb k k') eqn:E; simpl; auto.
  apply String.eqb_neq in E.
  rewrite IH; auto. destruct Hin; congruence.
Qed.

Lemma In_keys_set k k' v m :
  In k' (keys (set k v m)) <-> k' = k \/ In k' (keys m).
Proof.
  induction m as [|[k0 v0] m IH]; simpl.
  - intuition congruence.
  - destruct (String.eqb k k0) eqn:E; simpl.
    + apply String.eqb_eq in E. subst. intuition congruence.
    + rewrite IH. tauto.
Qed.

Lemma wf_set k v m : wf m -> wf (set k v m).
Proof.
  unfold wf.
  induction m as [|[k' v'] m IH]; simpl; intros Hnd.
  - constructor; [simpl; tauto | constructor].
  - inversion Hnd as [|? ? Hnin Hnd']; subst.
    destruct (String.eqb k k') eqn:E; simpl.
    + now constructor.
    + constructor; auto.
      change (~ In k' (keys (set k v m))).
      rewrite In_keys_set.
      apply String.eqb_neq in E. intuition congruence.
Qed.

Lemma wf_empty : wf (@empty V).
Proof. constructor. Qed.
End Facts.

End JSMapFacts.

(** ** The volatility estimator *)

Section Estimator.
Import JSMap JSMapFacts.

Lemma relevantPrices_window now prices :
  relevantPrices now prices = windowSamples now prices.
Proof.
  unfold relevantPrices, windowSamples.
  apply filter_ext. intros p. unfold inWindow. apply Z.geb_leb.
Qed.

Lemma fold_left_map_S {A} (f : A -> nat -> A) l acc :
  fold_left f (map S l) acc = fold_left (fun a i => f a (S i)) l acc.
Proof.
  revert acc. induction l as [|i l IH]; simpl; auto.
Qed.

Lemma fold_left_ext_in {A B} (f g : A -> B -> A) l acc :
  (forall a x, In x l -> f a x = g a x) ->
  fold_left f l acc = fold_left g l acc.
Proof.
  revert acc. induction l as [|x l IH]; simpl; intros acc H; auto.
  rewrite H by auto. apply IH. auto.
Qed.

(** The index loop, one sample shorter. *)
Lemma movement_loop_step a b (l : list PriceSample) acc :
  fold_left
    (fun total i =>
       (total + JS.Math_abs (price (nth i (a :: b :: l) undefinedSample)
                  - price (nth (i - 1) (a :: b :: l) undefinedSample)))%float)
    (seq 1 (S (List.length l))) acc
  = fold_left
      (fun total i =>
         (total + JS.Math_abs (price (nth i (b :: l) undefinedSample)
                    - price (nth (i - 1) (b :: l) undefinedSample)))%float)
      (seq 1 (List.length l))
      (acc + abs (price b - price a))%float.
Proof.
  cbn [seq fold_left]. rewrite <- seq_shift, fold_left_map_S.
  cbn [nth Nat.sub]. unfold JS.Math_abs at 1.
  apply fold_left_ext_in. intros t i Hi.
  apply in_seq in Hi.
  destruct i as [|i]; [lia|].
  cbn [nth Nat.sub]. now rewrite Nat.sub_0_r.
Qed.

Lemma movement_loop_moves (l : list PriceSample) : forall a acc,
  fold_left
    (fun total i =>
       (total + JS.Math_abs (price (nth i (a :: l) undefinedSample)
                  - price (nth (i - 1) (a :: l) undefinedSample)))%float)
    (seq 1 (List.length l)) acc
  = fold_left (fun acc x => acc + x)%float
      (consecutiveMoves (map price (a :: l))) acc.
Proof.
  induction l as [|b l IH]; intros a acc.
  - reflexivity.
  - cbn [List.length]. rewrite movement_loop_step, IH. reflexivity.
Qed.

Lemma totalMovement_moves rp :
  totalMovement rp = sumFromZero (consecutiveMoves (map price rp)).
Proof.
  destruct rp as [|a l]; [reflexivity|].
  unfold totalMovement, sumFromZero.
  cbn [List.length]. rewrite Nat.sub_succ, Nat.sub_0_r.
  apply movement_loop_moves.
Qed.

Lemma fold_left_map_r {A B C} (f : A -> C -> A) (g : B -> C) l acc :
  fold_left f (map g l) acc = fold_left (fun a x => f a (g x)) l acc.
Proof.
  revert acc. induction l as [|x l IH]; simpl; auto.
Qed.

Lemma averagePrice_mean rp : averagePrice rp = meanPrice (map price rp).
Proof.
  unfold averagePrice, meanPrice, sumFromZero.
  now rewrite fold_left_map_r, length_map.
Qed.

Lemma volatilityScore_windowScore rp : volatilityScore rp = windowScore rp.
Proof.
  unfold volatilityScore, windowScore.
  now rewrite totalMovement_moves, averagePrice_mean.
Qed.

(** On a history without repeated keys the loop appends the scored
    entries in iteration order. *)
Lemma fold_scoreEntry now l : forall acc,
  NoDup (keys l) ->
  (forall k, In k (keys l) -> ~ In k (keys acc)) ->
  fold_left (scoreEntry now) l acc = acc ++ scoredEntries now l.
Proof.
  induction l as [|[sym prices] l IH]; intros acc Hnd Hfresh.
  - simpl. now rewrite app_nil_r.
  - cbn [fold_left scoredEntries flat_map fst snd].
    inversion Hnd as [|? ? Hnin Hnd']; subst.
    unfold scoreEntry at 2.
    destruct (List.length (relevantPrices now prices) <? 2)%nat.
    + rewrite IH; auto. intros k Hk. apply Hfresh. now right.
    + rewrite set_fresh by (apply Hfresh; now left).
      rewrite IH; auto.
      * now rewrite <- app_assoc.
      * intros k Hk. unfold keys. rewrite map_app, in_app_iff.
        intros [H | [H | []]].
        -- revert H. apply Hfresh. now right.
        -- simpl in H. subst. auto.
Qed.

Lemma calculateVolatility_scoredEntries now st :
  wf (priceHistory st) ->
  volatilityScores (calculateVolatility now st)
  = scoredEntries now (priceHistory st).
Proof.
  intros Hwf. unfold calculateVolatility; cbn [volatilityScores].
  unfold entries, empty. rewrite fold_scoreEntry; auto.
Qed.

Lemma keys_scoredEntries now l k :
  In k (keys (scoredEntries now l)) -> In k (keys l).
Proof.
  induction l as [|[sym prices] l IH]; simpl; auto.
  unfold keys in *. rewrite map_app, in_app_iff.
  destruct (List.length (relevantPrices now prices) <? 2)%nat; simpl.
  - intros [[] | H]; auto.
  - intros [[H | []] | H]; auto.
Qed.

Lemma wf_scoredEntries now l : wf l -> wf (scoredEntries now l).
Proof.
  unfold wf.
  induction l as [|[sym prices] l IH]; simpl; intros Hnd.
  - constructor.
  - inversion Hnd as [|? ? Hnin Hnd']; subst.
    destruct (List.length (relevantPrices now prices) <? 2)%nat; simpl; auto.
    constructor; auto.
    intros H. apply Hnin. eapply keys_scoredEntries; eauto.
Qed.

Lemma get_scoredEntries now l sym :
  wf l ->
  get sym (scoredEntries now l) =
  match get sym l with
  | Some prices =>
      let w := windowSamples now prices in
      if (2 <=? List.length w)%nat then Some (windowScore w) else None
  | None => None
  end.
Proof.
  unfold wf.
  induction l as [|[k prices] l IH]; intros Hnd; [reflexivity|].
  inversion Hnd as [|? ? Hnin Hnd']; subst.
  cbn [scoredEntries flat_map fst snd get].
  fold (scoredEntries now l).
  rewrite volatilityScore_windowScore, relevantPrices_window.
  rewrite Nat.ltb_antisym.
  destruct (String.eqb sym k) eqn:E.
  - apply String.eqb_eq in E. subst k. cbn zeta.
    destruct (2 <=? List.length (windowSamples now prices))%nat; simpl.
    + now rewrite String.eqb_refl.
    + apply get_None_keys. intros H. apply Hnin.
      eapply keys_scoredEntries; eauto.
  - destruct (2 <=? List.length (windowSamples now prices))%nat; simpl.
    + rewrite E. now apply IH.
    + now apply IH.
Qed.
End Estimator.

Lemma windowSamples_all now l :
  Forall (fun p => now - 60000 <= timestamp p) l -> windowSamples now l = l.
Proof.
  induction 1 as [|p l Hp _ IH]; simpl; auto.
  unfold inWindow at 1. apply Z.leb_le in Hp. rewrite Hp. now f_equal.
Qed.

(** The worked example of the contract, on any symbol and any three
    instants of the window. *)
Lemma three_samples_scored now sym t1 t2 t3 volume err :
  now - 60000 <= t1 -> now - 60000 <= t2 -> now - 60000 <= t3 ->
  JS.ge volume minVolume = true ->
  let sampled :=
    calculateVolatility now
      (threeSamples sym 100 101 99 t1 t2 t3 volume err) in
  volatilityScores sampled = [(sym, 3%float)]
  /\ findBestPerformer sampled
     = {| res_symbol := Some sym;
          res_moves := 300;
          res_hasError := err |}.
Proof.
  intros H1 H2 H3 Hvol sampled.
  assert (Hscores : volatilityScores sampled = [(sym, 3%float)]).
  { subst sampled.
    unfold calculateVolatility, threeSamples, JSMap.entries, JSMap.empty.
    cbn [volatilityScores priceHistory fold_left scoreEntry].
    rewrite relevantPrices_window, windowSamples_all
      by (repeat constructor; assumption).
    reflexivity. }
  split; [exact Hscores |].
  unfold findBestPerformer, topPairs, eligiblePairs, JSMap.entries.
  rewrite Hscores. cbn [filter]. unfold passesFloor.
  subst sampled. cbn [fst volumes calculateVolatility threeSamples JSMap.get].
  rewrite String.eqb_refl. cbn [JS.toNumber]. rewrite Hvol.
  reflexivity.
Qed.

(** C1.  After [calculateVolatility], on a scanner whose price history
    is a [Map], a symbol has a score exactly when at least two of its
    samples carry a timestamp of the trailing 60 seconds, and the score
    is then (sum of the absolute consecutive price moves / mean price)
    × 100 over those samples.  The new score map is a [Map], depends on
    the price history alone (the previous scores are discarded) and
    nothing else of the scanner changes.  With the window prices
    100, 101, 99 the score is 3 and the selector reports 300 moves. *)
Theorem C1_calculateVolatility_scores :
  forall (now : Z) (st : SymbolScanner),
    JSMap.wf (priceHistory st) ->
    let st' := calculateVolatility now st in
    (forall sym,
        JSMap.get sym (volatilityScores st') =
        match JSMap.get sym (priceHistory st) with
        | Some prices =>
            let w := windowSamples now prices in
            if (2 <=? List.length w)%nat then Some (windowScore w) else None
        | None => None
        end)
    /\ JSMap.wf (volatilityScores st')
    /\ (forall st0,
           priceHistory st0 = priceHistory st ->
           volatilityScores (calculateVolatility now st0)
           = volatilityScores st')
    /\ priceHistory st' = priceHistory st
    /\ volumes st' = volumes st
    /\ hasErrorThisMinute st' = hasErrorThisMinute st
    /\ (forall sym t1 t2 t3 volume err,
           now - 60000 <= t1 -> now - 60000 <= t2 -> now - 60000 <= t3 ->
           JS.ge volume minVolume = true ->
           let sampled :=
             calculateVolatility now
               (threeSamples sym 100 101 99 t1 t2 t3 volume err) in
           volatilityScores sampled = [(sym, 3%float)]
           /\ findBestPerformer sampled
              = {| res_symbol := Some sym;
                   res_moves := 300;
                   res_hasError := err |}).
Proof.
  intros now st Hwf st'. subst st'.
  rewrite calculateVolatility_scoredEntries by assumption.
  split; [intros sym; now apply get_scoredEntries |].
  split; [now apply wf_scoredEntries |].
  split.
  { intros st0 H0. rewrite calculateVolatility_scoredEntries; congruence. }
  do 3 (split; [reflexivity |]).
  intros sym t1 t2 t3 volume err H1 H2 H3 Hvol.
  now apply three_samples_scored.
Qed.

Lemma C1_calculateVolatility_scores_witness :
  JSMap.get "BTCUSDT"
    (volatilityScores
       (calculateVolatility 60000
          (threeSamples "BTCUSDT" 100 101 99 1000 2000 3000 20000000 false)))
  = Some 3%float.
Proof.
  assert (Hwf : JSMap.wf
                  (priceHistory
                     (threeSamples "BTCUSDT" 100 101 99 1000 2000 3000
                        20000000 false))).
  { repeat constructor. simpl. tauto. }
  exact (eq_trans
           (proj1 (C1_calculateVolatility_scores 60000 _ Hwf) "BTCUSDT")
           eq_refl).
Defined.

(** ** Comparisons of numbers *)

(** Facts of binary64 arithmetic, read off the specification of the
    primitive operations ([SpecFloat]). *)

Section FloatOrder.

Lemma SFcompare_swap x y :
  SFcompare y x = option_map CompOpp (SFcompare x y).
Proof.
  destruct x as [sx|sx| |sx mx ex], y as [sy|sy| |sy my ey];
    try (destruct sx); try (destruct sy); try reflexivity;
    unfold SFcompare, option_map; f_equal;
    rewrite (Z.compare_antisym ex ey);
    destruct (ex ?= ey); try reflexivity; cbn [CompOpp];
    change (Pos.compare_cont Eq my mx)
      with (Pos.compare_cont (CompOpp Eq) my mx);
    rewrite <- (Pos.compare_cont_antisym mx my Eq);
    try reflexivity; now rewrite CompOpp_involutive.
Qed.

(** [a < b] excludes [a >= b]. *)
Lemma lt_not_ge a b : JS.lt a b = true -> JS.ge a b = false.
Proof.
  unfold JS.lt, JS.ge. rewrite ltb_spec, leb_spec.
  unfold SFltb, SFleb. rewrite (SFcompare_swap (Prim2SF a) (Prim2SF b)).
  destruct (SFcompare (Prim2SF a) (Prim2SF b)) as [[| |]|];
    simpl; congruence.
Qed.

(** [a <= b] excludes [a > b]. *)
Lemma le_not_gt a b : (a <=? b)%float = true -> JS.gt a b = false.
Proof.
  unfold JS.gt. rewrite ltb_spec, leb_spec.
  unfold SFltb, SFleb. rewrite (SFcompare_swap (Prim2SF a) (Prim2SF b)).
  destruct (SFcompare (Prim2SF a) (Prim2SF b)) as [[| |]|];
    simpl; congruence.
Qed.

(** [a < b] excludes [a > b]. *)
Lemma lt_not_gt a b : JS.lt a b = true -> JS.gt a b = false.
Proof.
  unfold JS.lt, JS.gt. rewrite !ltb_spec.
  unfold SFltb. rewrite (SFcompare_swap (Prim2SF a) (Prim2SF b)).
  destruct (SFcompare (Prim2SF a) (Prim2SF b)) as [[| |]|];
    simpl; congruence.
Qed.

Lemma digits2_size m : digits2_pos m = Pos.size m.
Proof. induction m; simpl; congruence. Qed.

Lemma digits2_lower m : 2 ^ (Zpos (digits2_pos m) - 1) <= Zpos m.
Proof.
  rewrite digits2_size.
  pose proof (Pos.size_le m) as H.
  apply Pos2Z.pos_le_pos in H. rewrite Pos2Z.inj_pow in H.
  change (Zpos m~0) with (2 * Zpos m) in H.
  replace (Zpos (Pos.size m)) with (Z.succ (Zpos (Pos.size m) - 1)) in H by lia.
  rewrite Z.pow_succ_r in H by lia. lia.
Qed.

Lemma digits2_upper m : Zpos m < 2 ^ Zpos (digits2_pos m).
Proof.
  rewrite digits2_size.
  pose proof (Pos.size_gt m) as H.
  apply Pos2Z.pos_lt_pos in H. now rewrite Pos2Z.inj_pow in H.
Qed.










Lemma iter_xO_value m d : Zpos (Pos.iter xO m d) = Zpos m * 2 ^ Zpos d.
Proof.
  rewrite <- Z.shiftl_mul_pow2 by lia. unfold Z.shiftl.
  apply (Pos.iter_swap_gen _ _ Zpos xO (Z.mul 2)). reflexivity.
Qed.

Lemma shl_align_value m e e' :
  e' <= e -> Zpos (fst (shl_align m e e')) = Zpos m * 2 ^ (e - e').
Proof.
  intros Hle. unfold shl_align.
  destruct (e' - e) as [|d|d] eqn:Ed; cbn [fst]; try lia.
  - replace (e - e') with 0 by lia. lia.
  - rewrite iter_xO_value. f_equal. f_equal. lia.
Qed.











End FloatOrder.

(** ** The performer selector *)

Section Selector.

Lemma sort_insert_perm {A} (cmp : A -> A -> float) a l :
  Permutation (JS.sort_insert cmp a l) (a :: l).
Proof.
  induction l as [|b l IH]; simpl; auto.
  destruct (JS.gt (cmp a b) 0); auto.
  rewrite IH. apply perm_swap.
Qed.

Lemma sort_perm {A} (cmp : A -> A -> float) l :
  Permutation (JS.sort cmp l) l.
Proof.
  induction l as [|a l IH]; simpl; auto.
  rewrite sort_insert_perm. now constructor.
Qed.

Lemma topPairs_In st entry :
  In entry (topPairs st) <->
  In entry (volatilityScores st) /\ passesFloor st entry = true.
Proof.
  unfold topPairs, eligiblePairs, JSMap.entries. rewrite <- filter_In. split.
  - apply Permutation_in, sort_perm.
  - apply Permutation_in, Permutation_sym, sort_perm.
Qed.

(** The result is read off the head of the sorted pairs. *)
Lemma findBestPerformer_winner st sym :
  res_symbol (findBestPerformer st) = Some sym ->
  exists score rest,
    topPairs st = (sym, score) :: rest
    /\ res_moves (findBestPerformer st) = JS.Math_round (score * 100).
Proof.
  unfold findBestPerformer.
  destruct (topPairs st) as [|[sym' score] rest]; simpl; [discriminate|].
  intros [= ->]. eauto.
Qed.

Lemma findBestPerformer_hasError st :
  res_hasError (findBestPerformer st) = hasErrorThisMinute st.
Proof.
  unfold findBestPerformer.
  now destruct (topPairs st) as [|[sym' score] rest].
Qed.

End Selector.

(** C2.  [findBestPerformer] never names a symbol whose volume is below
    10,000,000, whatever its score.  When no scored symbol passes the
    floor it returns the result with no symbol and 0 moves; otherwise it
    names a scored symbol that passes the floor, with
    [moves = Math.round(score * 100)] for that symbol's score.  It always
    returns, handing on the error flag. *)
Theorem C2_findBestPerformer_floor :
  forall st : SymbolScanner,
    (forall sym volume,
        JSMap.get sym (volumes st) = Some volume ->
        JS.lt volume minVolume = true ->
        res_symbol (findBestPerformer st) <> Some sym)
    /\ ((forall entry,
            In entry (JSMap.entries (volatilityScores st)) ->
            passesFloor st entry = false) ->
        findBestPerformer st
        = {| res_symbol := None;
             res_moves := 0;
             res_hasError := hasErrorThisMinute st |})
    /\ ((exists entry,
            In entry (JSMap.entries (volatilityScores st))
            /\ passesFloor st entry = true) ->
        exists sym, res_symbol (findBestPerformer st) = Some sym)
    /\ (forall sym,
           res_symbol (findBestPerformer st) = Some sym ->
           exists score,
             In (sym, score) (JSMap.entries (volatilityScores st))
             /\ passesFloor st (sym, score) = true
             /\ res_moves (findBestPerformer st)
                = JS.Math_round (score * 100))
    /\ res_hasError (findBestPerformer st) = hasErrorThisMinute st.
Proof.
  intros st. repeat apply conj.
  - intros sym volume Hget Hlow Hwin.
    apply findBestPerformer_winner in Hwin as (score & rest & Htop & _).
    assert (Hin : In (sym, score) (topPairs st))
      by (rewrite Htop; now left).
    apply topPairs_In in Hin as [_ Hpass].
    unfold passesFloor in Hpass. cbn [fst] in Hpass.
    rewrite Hget in Hpass. cbn [JS.toNumber] in Hpass.
    apply lt_not_ge in Hlow. congruence.
  - intros Hnone. unfold findBestPerformer.
    destruct (topPairs st) as [|entry rest] eqn:Htop; [reflexivity|].
    assert (Hin : In entry (topPairs st)) by (rewrite Htop; now left).
    apply topPairs_In in Hin as [Hin Hpass].
    rewrite (Hnone entry Hin) in Hpass. discriminate.
  - intros (entry & Hin & Hpass).
    assert (Htop : In entry (topPairs st)) by (now apply topPairs_In).
    unfold findBestPerformer.
    destruct (topPairs st) as [|[sym score] rest]; [destruct Htop|].
    now exists sym.
  - intros sym Hwin.
    destruct (findBestPerformer_winner _ _ Hwin) as (score & rest & Htop & Hm).
    assert (Hin : In (sym, score) (topPairs st))
      by (rewrite Htop; now left).
    apply topPairs_In in Hin as [Hin Hpass].
    now exists score.
  - apply findBestPerformer_hasError.
Qed.

(** The livelier symbol trades 9,999,999 a day and loses to the quiet
    one. *)
Lemma C2_findBestPerformer_floor_witness :
  res_symbol
    (findBestPerformer
       (twoScored "AUSDT" "BUSDT" 50 1 9999999 20000000 false))
  <> Some "AUSDT"
  /\ findBestPerformer
       (twoScored "AUSDT" "BUSDT" 50 1 9999999 20000000 false)
     = {| res_symbol := Some "BUSDT";
          res_moves := 100;
          res_hasError := false |}.
Proof.
  split.
  - exact (proj1 (C2_findBestPerformer_floor
                    (twoScored "AUSDT" "BUSDT" 50 1 9999999 20000000 false))
             "AUSDT" 9999999%float eq_refl eq_refl).
  - reflexivity.
Defined.

(** ** Ties between eligible symbols *)

Section TieBreak.


Variable st : SymbolScanner.
Variables symA symB : string.
Variables scoreA scoreB volA volB : float.

Hypothesis volume_A : JSMap.get symA (volumes st) = Some volA.
Hypothesis volume_B : JSMap.get symB (volumes st) = Some volB.
Hypothesis scores_tied :
  (JS.Math_abs (scoreB - scoreA) <=? 0.0001)%float = true.
Hypothesis A_larger : JS.gt volA volB = true.





End TieBreak.



(** ** The minute cycle *)

Section Cycle.

Lemma getSeconds_range t : 0 <= getSeconds t <= 59.
Proof.
  unfold getSeconds. pose proof (Z.mod_pos_bound (t / 1000) 60). lia.
Qed.

(** What a tick does and leaves, second by second. *)
Lemma resetPhase_0 st : resetPhase 0 st = (reset st, [CallReset]).
Proof. reflexivity. Qed.

Lemma resetPhase_pos s st : s <> 0 -> resetPhase s st = (st, []).
Proof.
  intros Hs. unfold resetPhase.
  destruct (Z.eqb_spec s 0); [contradiction | reflexivity].
Qed.

Lemma accumulatePhase_lt env s st :
  s < 59 ->
  accumulatePhase env s st
  = (calculateVolatility (calcNow env)
       (fetchTickers (response env) (currentTime env) st),
     [CallFetchTickers; CallCalculateVolatility]).
Proof.
  intros Hs. unfold accumulatePhase.
  destruct (Z.ltb_spec s 59); [reflexivity | lia].
Qed.

Lemma accumulatePhase_59 env st : accumulatePhase env 59 st = (st, []).
Proof. reflexivity. Qed.

Lemma server_finalize_lt s st : s < 59 -> Server.finalizePhase s st = [].
Proof.
  intros Hs. unfold Server.finalizePhase.
  destruct (Z.eqb_spec s 59); [lia | reflexivity].
Qed.

Lemma part000_finalize_lt env s st :
  s < 59 -> Part000.finalizePhase env s st = (None, []).
Proof.
  intros Hs. unfold Part000.finalizePhase.
  destruct (Z.eqb_spec s 59); [lia | reflexivity].
Qed.

Lemma server_scanner env st :
  scanner (Server.processMinute env st) = tickState env st.
Proof.
  unfold Server.processMinute, tickState, resetPhase, accumulatePhase.
  destruct (getSeconds (now env) =? 0), (getSeconds (now env) <? 59);
    reflexivity.
Qed.

Lemma part000_scanner env st :
  scanner (Part000.processMinute env st) = tickState env st.
Proof.
  unfold Part000.processMinute, tickState, resetPhase, accumulatePhase.
  destruct (getSeconds (now env) =? 0), (getSeconds (now env) <? 59);
    cbv zeta; destruct (Part000.finalizePhase env _ _); reflexivity.
Qed.

Lemma publishable_error st :
  hasErrorThisMinute st = true -> publishable (findBestPerformer st) = false.
Proof.
  intros H. unfold publishable.
  now rewrite findBestPerformer_hasError, H.
Qed.

End Cycle.

(** C4.  When [hasErrorThisMinute] is set as the tick of second 59
    starts, that tick emits no event, in either server, whatever the
    selector returns. *)
Theorem C4_error_suppresses_publication :
  forall (env : Env) (st : SymbolScanner),
    getSeconds (now env) = 59 ->
    hasErrorThisMinute st = true ->
    actions (Server.processMinute env st) = [CallFindBestPerformer]
    /\ actions (Part000.processMinute env st) = [CallFindBestPerformer]
    /\ (forall p,
           ~ In (Emit p) (actions (Server.processMinute env st))
           /\ ~ In (Emit p) (actions (Part000.processMinute env st))).
Proof.
  intros env st Hs Herr.
  assert (HS : actions (Server.processMinute env st)
               = [CallFindBestPerformer]).
  { unfold Server.processMinute, Server.finalizePhase. rewrite Hs.
    cbn [resetPhase accumulatePhase Z.eqb Z.ltb Z.compare Pos.compare
         Pos.compare_cont Pos.eqb actions app].
    now rewrite publishable_error. }
  assert (HP : actions (Part000.processMinute env st)
               = [CallFindBestPerformer]).
  { unfold Part000.processMinute, Part000.finalizePhase. rewrite Hs.
    cbn [resetPhase accumulatePhase Z.eqb Z.ltb Z.compare Pos.compare
         Pos.compare_cont Pos.eqb].
    now rewrite publishable_error. }
  repeat split; auto.
  - rewrite HS. intros [H | []]. discriminate.
  - rewrite HP. intros [H | []]. discriminate.
Qed.

(** A scanner with a ranked winner and the error flag raised. *)
Lemma C4_error_suppresses_publication_witness :
  res_symbol
    (findBestPerformer (twoScored "AUSDT" "BUSDT" 5 1 30000000 20000000 true))
  = Some "AUSDT"
  /\ actions
       (Server.processMinute (envAt 59000 (Resolved []) (Resolved []))
          (twoScored "AUSDT" "BUSDT" 5 1 30000000 20000000 true))
     = [CallFindBestPerformer].
Proof.
  split.
  - reflexivity.
  - exact (proj1 (C4_error_suppresses_publication
                    (envAt 59000 (Resolved []) (Resolved []))
                    (twoScored "AUSDT" "BUSDT" 5 1 30000000 20000000 true)
                    eq_refl eq_refl)).
Defined.

Section Phases.

Lemma server_actions env st :
  actions (Server.processMinute env st)
  = (if getSeconds (now env) =? 0 then [CallReset] else [])
    ++ (if getSeconds (now env) <? 59
        then [CallFetchTickers; CallCalculateVolatility] else [])
    ++ Server.finalizePhase (getSeconds (now env)) (tickState env st).
Proof.
  unfold Server.processMinute, tickState, resetPhase, accumulatePhase.
  destruct (getSeconds (now env) =? 0), (getSeconds (now env) <? 59);
    reflexivity.
Qed.

Lemma part000_actions env st :
  actions (Part000.processMinute env st)
  = (if getSeconds (now env) =? 0 then [CallReset] else [])
    ++ (if getSeconds (now env) <? 59
        then [CallFetchTickers; CallCalculateVolatility] else [])
    ++ snd (Part000.finalizePhase env (getSeconds (now env))
              (tickState env st)).
Proof.
  unfold Part000.processMinute, tickState, resetPhase, accumulatePhase.
  destruct (getSeconds (now env) =? 0), (getSeconds (now env) <? 59);
    cbv zeta; destruct (Part000.finalizePhase env _ _); reflexivity.
Qed.

Lemma server_finalize_59 st :
  exists tail,
    Server.finalizePhase 59 st = CallFindBestPerformer :: tail
    /\ forall a, In a tail -> a = ReadSnapshot \/ exists p, a = Emit p.
Proof.
  unfold Server.finalizePhase. cbn [Z.eqb Pos.eqb].
  destruct (publishable (findBestPerformer st)); eexists; split;
    try reflexivity; simpl; intros a Ha; intuition eauto.
Qed.

Lemma part000_finalize_59 env st :
  exists tail,
    snd (Part000.finalizePhase env 59 st) = CallFindBestPerformer :: tail
    /\ forall a, In a tail -> a = ReadSnapshot \/ exists p, a = Emit p.
Proof.
  unfold Part000.finalizePhase. cbn [Z.eqb Pos.eqb].
  destruct (publishable (findBestPerformer st));
    [destruct (lookup env) as [e | l];
     [| destruct (find _ l)] |];
    eexists; (split; [reflexivity |]); simpl; intros a Ha;
    intuition eauto.
Qed.

Lemma tickState_0 env st :
  getSeconds (now env) = 0 ->
  tickState env st
  = calculateVolatility (calcNow env)
      (fetchTickers (response env) (currentTime env) (reset st)).
Proof. intros H. unfold tickState. now rewrite H. Qed.

Lemma tickState_mid env st :
  1 <= getSeconds (now env) <= 58 ->
  tickState env st
  = calculateVolatility (calcNow env)
      (fetchTickers (response env) (currentTime env) st).
Proof.
  intros H. unfold tickState.
  destruct (Z.eqb_spec (getSeconds (now env)) 0); [lia|].
  destruct (Z.ltb_spec (getSeconds (now env)) 59); [reflexivity | lia].
Qed.

Lemma tickState_59 env st :
  getSeconds (now env) = 59 -> tickState env st = st.
Proof. intros H. unfold tickState. now rewrite H. Qed.

(** The three cases make the whole picture. *)
Lemma tickPhases_cases tick env st :
  (getSeconds (now env) = 0 ->
   actions (tick env st)
   = [CallReset; CallFetchTickers; CallCalculateVolatility]) ->
  (1 <= getSeconds (now env) <= 58 ->
   actions (tick env st) = [CallFetchTickers; CallCalculateVolatility]) ->
  (getSeconds (now env) = 59 ->
   exists tail,
     actions (tick env st) = CallFindBestPerformer :: tail
     /\ forall a, In a tail -> a = ReadSnapshot \/ exists p, a = Emit p) ->
  scanner (tick env st) = tickState env st ->
  tickPhases tick env st.
Proof.
  intros A0 Amid A59 Hst. unfold tickPhases. cbv zeta. rewrite Hst.
  pose proof (getSeconds_range (now env)) as Hr.
  pose proof (tickState_0 env st) as S0.
  pose proof (tickState_mid env st) as Smid.
  pose proof (tickState_59 env st) as S59.
  set (s := getSeconds (now env)) in *.
  assert (Hcase : s = 0 \/ 1 <= s <= 58 \/ s = 59) by lia.
  destruct Hcase as [E | [E | E]].
  - rewrite (A0 E). cbn [In].
    refine (conj _ (conj _ (conj _ (conj _ (conj _ (conj _ _)))))).
    + auto.
    + intros; lia.
    + intros; lia.
    + split; [intros; lia | intros; right; now left].
    + split; [intros; lia | intros; right; right; now left].
    + split; [intros; exact E | intros; now left].
    + split; [| intros; lia].
      intros [Hin | [Hin | [Hin | []]]]; discriminate.
  - rewrite (Amid E). cbn [In].
    refine (conj _ (conj _ (conj _ (conj _ (conj _ (conj _ _)))))).
    + intros; lia.
    + auto.
    + intros; lia.
    + split; [intros; lia | intros; now left].
    + split; [intros; lia | intros; right; now left].
    + split; [| intros; lia].
      intros [Hin | [Hin | []]]; discriminate.
    + split; [| intros; lia].
      intros [Hin | [Hin | []]]; discriminate.
  - destruct (A59 E) as (tail & -> & Htail).
    assert (Hno : forall a, In a tail ->
              a <> CallFetchTickers /\ a <> CallCalculateVolatility
              /\ a <> CallReset /\ a <> CallFindBestPerformer).
    { intros a Ha. destruct (Htail a Ha) as [-> | [p ->]];
        repeat split; discriminate. }
    cbn [In].
    refine (conj _ (conj _ (conj _ (conj _ (conj _ (conj _ _)))))).
    + intros; lia.
    + intros; lia.
    + intros _. split; [eauto | auto].
    + split; [| intros; lia].
      intros [Hin | Hin]; [discriminate | apply Hno in Hin; tauto].
    + split; [| intros; lia].
      intros [Hin | Hin]; [discriminate | apply Hno in Hin; tauto].
    + split; [| intros; lia].
      intros [Hin | Hin]; [discriminate | apply Hno in Hin; tauto].
    + split; [intros; exact E | intros; now left].
Qed.

Lemma server_phases env st : tickPhases Server.processMinute env st.
Proof.
  apply tickPhases_cases; try apply server_scanner;
    rewrite server_actions; intros Hs.
  - rewrite server_finalize_lt by lia. now rewrite Hs.
  - rewrite server_finalize_lt by lia.
    destruct (Z.eqb_spec (getSeconds (now env)) 0); [lia|].
    destruct (Z.ltb_spec (getSeconds (now env)) 59); [reflexivity | lia].
  - rewrite Hs. apply server_finalize_59.
Qed.

Lemma part000_phases env st : tickPhases Part000.processMinute env st.
Proof.
  apply tickPhases_cases; try apply part000_scanner;
    rewrite part000_actions; intros Hs.
  - rewrite part000_finalize_lt by lia. now rewrite Hs.
  - rewrite part000_finalize_lt by lia.
    destruct (Z.eqb_spec (getSeconds (now env)) 0); [lia|].
    destruct (Z.ltb_spec (getSeconds (now env)) 59); [reflexivity | lia].
  - rewrite Hs. apply part000_finalize_59.
Qed.

End Phases.




(** C6, as the code has it.  A tick calls [fetchTickers] and then
    [calculateVolatility] exactly when its second is between 0 and 58;
    the tick of second 0 first calls [reset] and then fetches and
    estimates like the others; the tick of second 59 calls
    [findBestPerformer] and, besides, only reads a snapshot or emits,
    leaving the scanner as it found it. *)
Theorem C6_tick_phases :
  forall (env : Env) (st : SymbolScanner),
    tickPhases Server.processMinute env st
    /\ tickPhases Part000.processMinute env st.
Proof.
  intros env st. split; [apply server_phases | apply part000_phases].
Qed.

Lemma C6_tick_phases_witness :
  actions
    (Server.processMinute (envAt 121000 (oneQuote 7 20000000) (Resolved []))
       constructor)
  = [CallFetchTickers; CallCalculateVolatility]
  /\ actions
       (Part000.processMinute
          (envAt 120000 (oneQuote 7 20000000) (Resolved [])) constructor)
     = [CallReset; CallFetchTickers; CallCalculateVolatility].
Proof.
  split.
  - destruct (C6_tick_phases
                (envAt 121000 (oneQuote 7 20000000) (Resolved []))
                constructor) as [(_ & H & _) _].
    apply H. vm_compute. split; discriminate.
  - destruct (C6_tick_phases
                (envAt 120000 (oneQuote 7 20000000) (Resolved []))
                constructor) as [_ (H & _)].
    apply H. reflexivity.
Defined.

(** C6 fails as stated: the tick of second 0 does not only reset, it
    also fetches and estimates, so fetching is not confined to seconds
    1 to 58. *)
Lemma C6_counterexample :
  let env := envAt 120000 (oneQuote 7 20000000) (Resolved []) in
  getSeconds (now env) = 0
  /\ actions (Server.processMinute env constructor)
     = [CallReset; CallFetchTickers; CallCalculateVolatility]
  /\ actions (Part000.processMinute env constructor)
     = [CallReset; CallFetchTickers; CallCalculateVolatility]
  /\ priceHistory (scanner (Server.processMinute env constructor))
     = [("BTCUSDT", [ {| price := 7; timestamp := 120000 |} ])]
  /\ ~ (In CallFetchTickers (actions (Server.processMinute env constructor))
        -> 1 <= getSeconds (now env) <= 58)
  /\ actions (Server.processMinute env constructor) <> [CallReset].
Proof.
  cbv zeta. repeat apply conj; try reflexivity.
  - intros H. assert (Hs : 1 <= 0 <= 58) by (apply H; right; now left). lia.
  - discriminate.
Qed.

(** ** Fixed-point numerals *)

Section Numerals.
Local Open Scope string_scope.


Lemma string_length_app (a b : string) :
  String.length (a ++ b) = (String.length a + String.length b)%nat.
Proof. induction a as [|x a IH]; simpl; congruence. Qed.







End Numerals.

(** ** Publication *)

Section Publication.

Lemma publishable_winner st sym :
  hasErrorThisMinute st = false ->
  res_symbol (findBestPerformer st) = Some sym ->
  sym <> "" ->
  publishable (findBestPerformer st) = true.
Proof.
  intros Herr Hsym Hne. unfold publishable.
  rewrite findBestPerformer_hasError, Herr, Hsym. cbn.
  apply String.eqb_neq in Hne. now rewrite Hne.
Qed.

Lemma part000_actions_59 env st :
  getSeconds (now env) = 59 ->
  Part000.processMinute env st
  = {| rejected := fst (Part000.finalizePhase env 59 st);
       scanner := st;
       actions := snd (Part000.finalizePhase env 59 st) |}.
Proof.
  intros Hs. unfold Part000.processMinute. rewrite Hs.
  cbn [resetPhase accumulatePhase Z.eqb Z.ltb Z.compare Pos.compare
       Pos.compare_cont Pos.eqb app].
  now destruct (Part000.finalizePhase env 59 st).
Qed.

Lemma server_actions_59 env st :
  getSeconds (now env) = 59 ->
  Server.processMinute env st
  = {| rejected := None;
       scanner := st;
       actions := Server.finalizePhase 59 st |}.
Proof.
  intros Hs. unfold Server.processMinute. rewrite Hs. reflexivity.
Qed.


End Publication.




(** ** The error flag *)

Section ErrorFlag.

Lemma ingest_scores t ticker st st' :
  ingest t ticker st = Some st' ->
  volatilityScores st' = volatilityScores st
  /\ hasErrorThisMinute st' = hasErrorThisMinute st.
Proof.
  unfold ingest. destruct (symbol ticker) as [s|]; [|discriminate].
  destruct (JS.endsWith s "USDT"); intros [= <-]; auto.
Qed.

Lemma forEach_ingest_flag t l : forall st,
  hasErrorThisMinute (fst (forEach_ingest t l st)) = hasErrorThisMinute st
  /\ (snd (forEach_ingest t l st) <> None <-> fetchFails (Resolved l) = true).
Proof.
  induction l as [|ticker l IH]; intros st; cbn [forEach_ingest fetchFails
                                                  existsb].
  - split; [reflexivity|]. cbn. split; [congruence | discriminate].
  - destruct (ingest t ticker st) as [st'|] eqn:E.
    + destruct (IH st') as [Hf Hs].
      destruct (ingest_scores _ _ _ _ E) as [_ He].
      unfold ingest in E. destruct (symbol ticker); [|discriminate].
      cbn [orb]. split; [congruence | exact Hs].
    + unfold ingest in E. destruct (symbol ticker) as [s|].
      * destruct (JS.endsWith s "USDT"); discriminate.
      * cbn. split; [reflexivity|]. split; [auto | discriminate].
Qed.

(** The flag after [fetchTickers]: raised by a failure, else kept. *)
Lemma fetchTickers_flag response t st :
  hasErrorThisMinute (fetchTickers response t st)
  = hasErrorThisMinute st || fetchFails response.
Proof.
  unfold fetchTickers. destruct response as [e | l].
  - cbn [set_hasError hasErrorThisMinute fetchFails].
    now rewrite orb_true_r.
  - destruct (forEach_ingest_flag t l st) as [Hf Hs].
    destruct (forEach_ingest t l st) as [st' [e|]]; cbn [fst snd] in *.
    + cbn [set_hasError hasErrorThisMinute].
      replace (fetchFails (Resolved l)) with true.
      * now rewrite orb_true_r.
      * symmetry. apply Hs. discriminate.
    + rewrite Hf.
      destruct (fetchFails (Resolved l)) eqn:E.
      * exfalso. now apply Hs.
      * now rewrite orb_false_r.
Qed.

Lemma tickState_flag env st :
  hasErrorThisMinute (tickState env st)
  = if getSeconds (now env) =? 0 then fetchFails (response env)
    else if getSeconds (now env) <? 59
         then hasErrorThisMinute st || fetchFails (response env)
         else hasErrorThisMinute st.
Proof.
  unfold tickState.
  destruct (Z.eqb_spec (getSeconds (now env)) 0) as [E | N].
  - rewrite E. cbn [Z.ltb Z.compare]. cbn [calculateVolatility
                                            hasErrorThisMinute].
    now rewrite fetchTickers_flag.
  - destruct (getSeconds (now env) <? 59); auto.
    cbn [calculateVolatility hasErrorThisMinute].
    apply fetchTickers_flag.
Qed.

(** Once raised, the flag stays through every tick that is not the
    tick of second 0. *)
Lemma flag_sticky tick envs : forall st,
  (forall env st0, scanner (tick env st0) = tickState env st0) ->
  Forall (fun env => getSeconds (now env) <> 0) envs ->
  hasErrorThisMinute st = true ->
  hasErrorThisMinute (run tick envs st) = true.
Proof.
  induction envs as [|env envs IH]; intros st Htick Hall Hflag; auto.
  inversion Hall as [|? ? Hne Hall']; subst.
  cbn [run fold_left]. apply IH; auto.
  rewrite Htick, tickState_flag.
  destruct (Z.eqb_spec (getSeconds (now env)) 0); [contradiction|].
  destruct (getSeconds (now env) <? 59); auto.
  now rewrite Hflag.
Qed.

(** A failed fetch raises the flag, and the tick still completes. *)
Lemma failed_fetch_flags env st :
  getSeconds (now env) < 59 ->
  fetchFails (response env) = true ->
  hasErrorThisMinute (tickState env st) = true.
Proof.
  intros Hs Hfail. rewrite tickState_flag, Hfail.
  destruct (getSeconds (now env) =? 0); auto.
  destruct (Z.ltb_spec (getSeconds (now env)) 59); [|lia].
  apply orb_true_r.
Qed.

(** Only the tick of second 0 lowers the flag. *)
Lemma flag_lowered_by_reset env st :
  hasErrorThisMinute st = true ->
  hasErrorThisMinute (tickState env st) = false ->
  getSeconds (now env) = 0.
Proof.
  intros Hflag Hlow. rewrite tickState_flag in Hlow.
  destruct (Z.eqb_spec (getSeconds (now env)) 0); auto.
  destruct (getSeconds (now env) <? 59); rewrite Hflag in Hlow;
    discriminate.
Qed.

(** The promise of [src/server.js] never rejects. *)
Lemma server_never_rejects env st :
  rejected (Server.processMinute env st) = None.
Proof.
  unfold Server.processMinute.
  destruct (resetPhase _ st) as [st1 a1].
  now destruct (accumulatePhase env _ st1) as [st2 a2].
Qed.

(** The promise of [src/unnamed/part_000] does not reject before
    second 59. *)
Lemma part000_accumulate_never_rejects env st :
  getSeconds (now env) < 59 ->
  rejected (Part000.processMinute env st) = None.
Proof.
  intros Hs. unfold Part000.processMinute.
  destruct (resetPhase _ st) as [st1 a1].
  destruct (accumulatePhase env _ st1) as [st2 a2].
  now rewrite part000_finalize_lt.
Qed.

(** In [src/unnamed/part_000] a failure of the snapshot read at
    second 59 is not caught. *)
Lemma part000_lookup_failure env st sym e :
  getSeconds (now env) = 59 ->
  hasErrorThisMinute st = false ->
  res_symbol (findBestPerformer st) = Some sym ->
  sym <> "" ->
  lookup env = Rejected e ->
  Part000.processMinute env st
  = {| rejected := Some e;
       scanner := st;
       actions := [CallFindBestPerformer; ReadSnapshot] |}.
Proof.
  intros Hs Herr Hsym Hne Hl.
  rewrite part000_actions_59 by assumption.
  unfold Part000.finalizePhase. cbn [Z.eqb Pos.eqb].
  now rewrite (publishable_winner st sym Herr Hsym Hne), Hl.
Qed.

End ErrorFlag.

(** A failure of the fetch of a tick (the request is rejected or
    an element of the list makes the callback throw) is caught by
    [fetchTickers]: it raises [hasErrorThisMinute] and the tick
    completes.  A raised flag stays raised through every later tick
    that is not a tick of second 0, and a tick that lowers it is a tick
    of second 0, which calls [reset].  The promise of [processMinute]
    of [src/server.js] never rejects, nor does the one of
    [src/unnamed/part_000] at the seconds at which [fetchTickers] runs,
    and the driver goes on to the next tick in any case. *)
Lemma error_flag_sticky :
  forall (env : Env) (st : SymbolScanner),
    (forall response t,
        hasErrorThisMinute (fetchTickers response t st)
        = hasErrorThisMinute st || fetchFails response)
    /\ (getSeconds (now env) < 59 ->
        fetchFails (response env) = true ->
        hasErrorThisMinute (scanner (Server.processMinute env st)) = true
        /\ hasErrorThisMinute (scanner (Part000.processMinute env st)) = true
        /\ rejected (Server.processMinute env st) = None
        /\ rejected (Part000.processMinute env st) = None)
    /\ (forall envs,
           Forall (fun e => getSeconds (now e) <> 0) envs ->
           hasErrorThisMinute st = true ->
           hasErrorThisMinute (run Server.processMinute envs st) = true
           /\ hasErrorThisMinute (run Part000.processMinute envs st) = true)
    /\ (hasErrorThisMinute st = true ->
        hasErrorThisMinute (scanner (Server.processMinute env st)) = false
        \/ hasErrorThisMinute (scanner (Part000.processMinute env st))
           = false ->
        getSeconds (now env) = 0
        /\ In CallReset (actions (Server.processMinute env st))
        /\ In CallReset (actions (Part000.processMinute env st)))
    /\ rejected (Server.processMinute env st) = None
    /\ (getSeconds (now env) < 59 ->
        rejected (Part000.processMinute env st) = None).
Proof.
  intros env st.
  split; [intros response t; apply fetchTickers_flag |].
  split.
  { intros Hs Hfail. rewrite server_scanner, part000_scanner.
    repeat split; auto using failed_fetch_flags, server_never_rejects,
                    part000_accumulate_never_rejects. }
  split.
  { intros envs Hall Hflag.
    split; apply flag_sticky;
      auto using server_scanner, part000_scanner. }
  split.
  { intros Hflag Hlow. rewrite server_scanner, part000_scanner in Hlow.
    assert (Hs : getSeconds (now env) = 0)
      by (destruct Hlow; eapply flag_lowered_by_reset; eauto).
    split; [exact Hs |].
    destruct (server_phases env st) as (_ & _ & _ & _ & _ & HS & _).
    destruct (part000_phases env st) as (_ & _ & _ & _ & _ & HP & _).
    split; [now apply HS | now apply HP]. }
  split; [apply server_never_rejects |].
  apply part000_accumulate_never_rejects.
Qed.

(** A rejected request at second 7, then well-answered ticks up to
    second 59: the flag is still up. *)
Example error_flag_sticky_minute :
  hasErrorThisMinute
    (scanner
       (Server.processMinute
          (envAt 67000 (Rejected connectionReset) (Resolved []))
          constructor))
  = true
  /\ hasErrorThisMinute
       (run Server.processMinute
          [envAt 68000 (oneQuote 100 20000000) (Resolved []);
           envAt 69000 (oneQuote 101 20000000) (Resolved []);
           envAt 119000 (Resolved []) (Resolved [])]
          (scanner
             (Server.processMinute
                (envAt 67000 (Rejected connectionReset) (Resolved []))
                constructor)))
     = true.
Proof.
  split.
  - destruct (error_flag_sticky
                (envAt 67000 (Rejected connectionReset) (Resolved []))
                constructor) as (_ & H & _).
    apply H; [vm_compute | ]; reflexivity.
  - destruct (error_flag_sticky
                (envAt 67000 (Rejected connectionReset) (Resolved []))
                (scanner
                   (Server.processMinute
                      (envAt 67000 (Rejected connectionReset) (Resolved []))
                      constructor))) as (_ & _ & H & _).
    apply H; [| reflexivity].
    repeat constructor; discriminate.
Qed.

(** C8.  A fetch failure that escapes a tick.  In
    [src/unnamed/part_000] the snapshot read of second 59 is outside
    every [try]: when that request fails with a winner at hand, the
    promise of [processMinute] rejects with the failure and
    [hasErrorThisMinute] stays [false].  Failures inside [fetchTickers]
    are caught in both servers ([error_flag_sticky]), and
    [src/server.js] makes no other request. *)
Theorem C8_part000_lookup_failure_escapes :
  let env := envAt 59000 (Resolved []) (Rejected connectionReset) in
  let st := twoScored "AUSDT" "BUSDT" 5 1 30000000 20000000 false in
  getSeconds (now env) = 59
  /\ hasErrorThisMinute st = false
  /\ res_symbol (findBestPerformer st) = Some "AUSDT"
  /\ Part000.processMinute env st
     = {| rejected := Some connectionReset;
          scanner := st;
          actions := [CallFindBestPerformer; ReadSnapshot] |}
  /\ hasErrorThisMinute (scanner (Part000.processMinute env st)) = false
  /\ rejected (Server.processMinute env st) = None.
Proof.
  cbv zeta. repeat apply conj; reflexivity.
Qed.

(** ** Pruning *)

Section Pruning.
Import JSMap JSMapFacts.

Lemma pruneEntry_set now history k prices :
  pruneEntry now history (k, prices)
  = set k (filter (retained now) prices) history.
Proof.
  unfold pruneEntry. f_equal. apply filter_ext.
  intros p. unfold retained. apply Z.geb_leb.
Qed.

Lemma fold_pruneEntry_get now l : forall m,
  NoDup (keys l) ->
  (forall k v, In (k, v) l -> get k m = Some v) ->
  forall sym,
    get sym (fold_left (pruneEntry now) l m)
    = match get sym l with
      | Some v => Some (filter (retained now) v)
      | None => get sym m
      end.
Proof.
  induction l as [|[k v] l IH]; intros m Hnd Hin sym; [reflexivity|].
  inversion Hnd as [|? ? Hnin Hnd']; subst.
  cbn [fold_left get]. rewrite pruneEntry_set, IH; auto.
  - destruct (String.eqb sym k) eqn:E.
    + apply String.eqb_eq in E. subst k.
      apply get_None_keys in Hnin. rewrite Hnin.
      apply get_set_same.
    + destruct (get sym l); auto.
      apply get_set_other. apply String.eqb_neq in E. congruence.
  - intros k' v' Hin'.
    rewrite get_set_other; [apply Hin; now right|].
    intros ->. apply Hnin. now apply (in_map fst) in Hin'.
Qed.

Lemma fold_pruneEntry_keys now l : forall m,
  (forall k, In k (keys l) -> In k (keys m)) ->
  keys (fold_left (pruneEntry now) l m) = keys m.
Proof.
  induction l as [|[k v] l IH]; intros m Hin; [reflexivity|].
  cbn [fold_left]. rewrite pruneEntry_set.
  assert (Hk : keys (set k (filter (retained now) v) m) = keys m)
    by (apply keys_set_present, Hin; now left).
  rewrite IH; auto.
  intros k' Hk'. rewrite Hk. apply Hin. now right.
Qed.

Lemma cleanupOldData_get now st sym :
  wf (priceHistory st) ->
  get sym (priceHistory (cleanupOldData now st))
  = option_map (filter (retained now)) (get sym (priceHistory st)).
Proof.
  intros Hwf. unfold cleanupOldData, entries; cbn [priceHistory].
  rewrite fold_pruneEntry_get; auto.
  - now destruct (get sym (priceHistory st)).
  - intros k v. now apply In_get_Some.
Qed.

Lemma cleanupOldData_keys now st :
  keys (priceHistory (cleanupOldData now st)) = keys (priceHistory st).
Proof.
  unfold cleanupOldData, entries; cbn [priceHistory].
  now apply fold_pruneEntry_keys.
Qed.

End Pruning.

(** C9.  [cleanupOldData] replaces the log of every symbol by its
    samples of the trailing 120 seconds, in their order, and touches
    nothing else.  Hence a sample aged exactly 90 seconds stays, though
    it is outside the 60-second window; every sample of the window
    stays; a sample older than 120 seconds goes. *)
Theorem C9_cleanupOldData_retention :
  forall (now : Z) (st : SymbolScanner),
    JSMap.wf (priceHistory st) ->
    let st' := cleanupOldData now st in
    (forall sym,
        JSMap.get sym (priceHistory st')
        = option_map (filter (retained now))
            (JSMap.get sym (priceHistory st)))
    /\ JSMap.keys (priceHistory st') = JSMap.keys (priceHistory st)
    /\ volatilityScores st' = volatilityScores st
    /\ volumes st' = volumes st
    /\ hasErrorThisMinute st' = hasErrorThisMinute st
    /\ (forall sym prices p,
           JSMap.get sym (priceHistory st) = Some prices ->
           In p prices ->
           (timestamp p = now - 90000 ->
            inWindow now p = false
            /\ exists prices',
                JSMap.get sym (priceHistory st') = Some prices'
                /\ In p prices')
           /\ (inWindow now p = true ->
               exists prices',
                 JSMap.get sym (priceHistory st') = Some prices'
                 /\ In p prices')
           /\ (timestamp p < now - 120000 ->
               forall prices',
                 JSMap.get sym (priceHistory st') = Some prices' ->
                 ~ In p prices')).
Proof.
  intros now st Hwf st'. subst st'.
  split; [intros sym; now apply cleanupOldData_get |].
  split; [apply cleanupOldData_keys |].
  do 3 (split; [reflexivity |]).
  intros sym prices p Hget Hin.
  rewrite cleanupOldData_get, Hget by assumption. cbn [option_map].
  repeat apply conj.
  - intros Hage. split.
    + unfold inWindow. apply Z.leb_gt. lia.
    + eexists. split; [reflexivity|].
      apply filter_In. split; auto. unfold retained. apply Z.leb_le. lia.
  - intros Hwin. eexists. split; [reflexivity|].
    apply filter_In. split; auto.
    unfold inWindow in Hwin. apply Z.leb_le in Hwin.
    unfold retained. apply Z.leb_le. lia.
  - intros Hold prices' [= <-] Hin'.
    apply filter_In in Hin' as [_ Hret].
    unfold retained in Hret. apply Z.leb_le in Hret. lia.
Qed.

(** One symbol sampled 130, 90 and 30 seconds before 200000. *)
Lemma C9_cleanupOldData_retention_witness :
  JSMap.get "BTCUSDT"
    (priceHistory
       (cleanupOldData 200000
          (threeSamples "BTCUSDT" 100 101 99 70000 110000 170000
             20000000 false)))
  = Some [ {| price := 101; timestamp := 110000 |};
           {| price := 99; timestamp := 170000 |} ].
Proof.
  assert (Hwf : JSMap.wf
                  (priceHistory
                     (threeSamples "BTCUSDT" 100 101 99 70000 110000 170000
                        20000000 false))).
  { repeat constructor. simpl. tauto. }
  exact (eq_trans
           (proj1 (C9_cleanupOldData_retention 200000 _ Hwf) "BTCUSDT")
           eq_refl).
Defined.

(** ** Scored symbols have volumes *)

Section Coverage.
Import JSMap JSMapFacts.

Lemma covered_reset st : covered (reset st).
Proof. split; intros k []. Qed.

Lemma wellFormed_reset st : wellFormed (reset st).
Proof. repeat split; constructor. Qed.

Lemma covered_set_hasError b st : covered st -> covered (set_hasError b st).
Proof. auto. Qed.

Lemma ingest_history_keys t ticker st st' :
  ingest t ticker st = Some st' ->
  forall k, In k (keys (priceHistory st')) ->
            In k (keys (priceHistory st))
            \/ (symbol ticker = Some k /\ In k (keys (volumes st'))).
Proof.
  unfold ingest. destruct (symbol ticker) as [s|]; [|discriminate].
  destruct (JS.endsWith s "USDT"); intros [= <-]; auto.
  cbn [priceHistory volumes]. intros k Hk.
  assert (Hk' : k = s \/ In k (keys (priceHistory st))).
  { destruct (negb (has s (priceHistory st)));
      [destruct (get s (set s [] (priceHistory st)))
      |destruct (get s (priceHistory st))];
      repeat (apply In_keys_set in Hk as [Hk | Hk]); auto. }
  destruct Hk' as [-> | Hk']; auto.
  right. split; auto. apply In_keys_set. now left.
Qed.

Lemma ingest_volumes_keys t ticker st st' :
  ingest t ticker st = Some st' ->
  forall k, In k (keys (volumes st)) -> In k (keys (volumes st')).
Proof.
  unfold ingest. destruct (symbol ticker) as [s|]; [|discriminate].
  destruct (JS.endsWith s "USDT"); intros [= <-]; auto.
  cbn [volumes]. intros k Hk. apply In_keys_set. now right.
Qed.

Lemma covered_ingest t ticker st st' :
  ingest t ticker st = Some st' -> covered st -> covered st'.
Proof.
  intros Hi [Hs Hh]. split; intros k Hk.
  - destruct (ingest_scores _ _ _ _ Hi) as [-> _] in Hk.
    eapply ingest_volumes_keys; eauto.
  - destruct (ingest_history_keys _ _ _ _ Hi k Hk) as [H | [_ H]]; auto.
    eapply ingest_volumes_keys; eauto.
Qed.

Lemma wellFormed_ingest t ticker st st' :
  ingest t ticker st = Some st' -> wellFormed st -> wellFormed st'.
Proof.
  unfold ingest. destruct (symbol ticker) as [s|]; [|discriminate].
  destruct (JS.endsWith s "USDT"); intros [= <-]; auto.
  intros (Hh & Hs & Hv). repeat split; cbn; auto using wf_set.
  destruct (negb (has s (priceHistory st)));
    [destruct (get s (set s [] (priceHistory st)))
    |destruct (get s (priceHistory st))];
    auto using wf_set.
Qed.

Lemma forEach_ingest_invariant (P : SymbolScanner -> Prop) t :
  (forall ticker st st', ingest t ticker st = Some st' -> P st -> P st') ->
  forall l st, P st -> P (fst (forEach_ingest t l st)).
Proof.
  intros Hstep. induction l as [|ticker l IH]; intros st HP; simpl; auto.
  destruct (ingest t ticker st) as [st'|] eqn:E; simpl; eauto.
Qed.

Lemma fetchTickers_invariant (P : SymbolScanner -> Prop) :
  (forall t ticker st st', ingest t ticker st = Some st' -> P st -> P st') ->
  (forall b st, P st -> P (set_hasError b st)) ->
  forall response t st, P st -> P (fetchTickers response t st).
Proof.
  intros Hstep Hflag response t st HP. unfold fetchTickers.
  destruct response as [e | l]; auto.
  pose proof (forEach_ingest_invariant P t (Hstep t) l st HP) as H.
  destruct (forEach_ingest t l st) as [st' [e|]]; auto.
Qed.

Lemma covered_fetchTickers response t st :
  covered st -> covered (fetchTickers response t st).
Proof.
  apply fetchTickers_invariant; eauto using covered_ingest.
Qed.

Lemma wellFormed_fetchTickers response t st :
  wellFormed st -> wellFormed (fetchTickers response t st).
Proof.
  apply fetchTickers_invariant; eauto using wellFormed_ingest.
Qed.

Lemma fold_scoreEntry_keys now l : forall acc k,
  In k (keys (fold_left (scoreEntry now) l acc)) ->
  In k (keys acc) \/ In k (keys l).
Proof.
  induction l as [|[sym prices] l IH]; intros acc k Hk; simpl in *; auto.
  apply IH in Hk as [Hk | Hk]; auto.
  destruct (List.length (relevantPrices now prices) <? 2)%nat; auto.
  apply In_keys_set in Hk as [-> | Hk]; auto.
Qed.

Lemma fold_scoreEntry_wf now l : forall acc,
  wf acc -> wf (fold_left (scoreEntry now) l acc).
Proof.
  induction l as [|[sym prices] l IH]; intros acc Hwf; simpl; auto.
  apply IH.
  destruct (List.length (relevantPrices now prices) <? 2)%nat;
    auto using wf_set.
Qed.

Lemma covered_calculateVolatility now st :
  covered st -> covered (calculateVolatility now st).
Proof.
  intros [Hs Hh]. split; cbn [volatilityScores volumes priceHistory
                              calculateVolatility]; auto.
  intros k Hk. apply fold_scoreEntry_keys in Hk as [[] | Hk]. auto.
Qed.

Lemma wellFormed_calculateVolatility now st :
  wellFormed st -> wellFormed (calculateVolatility now st).
Proof.
  intros (Hh & Hs & Hv). repeat split; cbn; auto.
  apply fold_scoreEntry_wf. constructor.
Qed.

Lemma covered_cleanupOldData now st :
  covered st -> covered (cleanupOldData now st).
Proof.
  intros [Hs Hh]. split; auto.
  intros k. rewrite cleanupOldData_keys. apply Hh.
Qed.

Lemma wellFormed_cleanupOldData now st :
  wellFormed st -> wellFormed (cleanupOldData now st).
Proof.
  intros (Hh & Hs & Hv). repeat split; auto.
  unfold wf. now rewrite cleanupOldData_keys.
Qed.

Lemma tickState_invariant (P : SymbolScanner -> Prop) :
  (forall st, P (reset st)) ->
  (forall response t st, P st -> P (fetchTickers response t st)) ->
  (forall now st, P st -> P (calculateVolatility now st)) ->
  forall env st, P st -> P (tickState env st).
Proof.
  intros Hr Hf Hc env st HP. unfold tickState.
  destruct (getSeconds (now env) =? 0), (getSeconds (now env) <? 59);
    auto.
Qed.

Lemma reachable_invariant (P : SymbolScanner -> Prop) :
  (forall st, P (reset st)) ->
  (forall response t st, P st -> P (fetchTickers response t st)) ->
  (forall now st, P st -> P (calculateVolatility now st)) ->
  (forall now st, P st -> P (cleanupOldData now st)) ->
  forall st, reachable st -> P st.
Proof.
  intros Hr Hf Hc Hp st Hreach.
  induction Hreach; auto.
  - exact (Hr constructor).
  - rewrite server_scanner. now apply tickState_invariant.
  - rewrite part000_scanner. now apply tickState_invariant.
Qed.

Lemma reachable_covered st : reachable st -> covered st.
Proof.
  apply reachable_invariant;
    auto using covered_reset, covered_fetchTickers,
      covered_calculateVolatility, covered_cleanupOldData.
Qed.

Lemma reachable_wellFormed st : reachable st -> wellFormed st.
Proof.
  apply reachable_invariant;
    auto using wellFormed_reset, wellFormed_fetchTickers,
      wellFormed_calculateVolatility, wellFormed_cleanupOldData.
Qed.

Lemma quotedInUSDT_ingest t ticker st st' :
  ingest t ticker st = Some st' -> quotedInUSDT st -> quotedInUSDT st'.
Proof.
  unfold ingest. destruct (symbol ticker) as [s|]; [|discriminate].
  destruct (JS.endsWith s "USDT") eqn:Hend; intros [= <-]; auto.
  intros [Hh Hs]. split; auto.
  cbn [priceHistory]. intros k Hk.
  assert (Hk' : k = s \/ In k (keys (priceHistory st))).
  { destruct (negb (has s (priceHistory st)));
      [destruct (get s (set s [] (priceHistory st)))
      |destruct (get s (priceHistory st))];
      repeat (apply In_keys_set in Hk as [Hk | Hk]); auto. }
  destruct Hk' as [-> | Hk']; auto.
Qed.

Lemma reachable_quotedInUSDT st : reachable st -> quotedInUSDT st.
Proof.
  apply reachable_invariant.
  - intros st0. split; intros k [].
  - apply fetchTickers_invariant; eauto using quotedInUSDT_ingest.
  - intros now st0 [Hh Hs]. split; auto.
    cbn [calculateVolatility volatilityScores]. intros k Hk.
    apply fold_scoreEntry_keys in Hk as [[] | Hk]. auto.
  - intros now st0 [Hh Hs]. split; auto.
    intros k. rewrite cleanupOldData_keys. apply Hh.
Qed.

(** In a reachable state the winner's symbol is a truthy string. *)
Lemma reachable_winner_truthy st sym :
  reachable st -> res_symbol (findBestPerformer st) = Some sym -> sym <> "".
Proof.
  intros Hreach Hwin.
  destruct (reachable_quotedInUSDT st Hreach) as [_ Hs].
  apply findBestPerformer_winner in Hwin as (score & rest & Htop & _).
  assert (Hin : In (sym, score) (topPairs st)) by (rewrite Htop; now left).
  apply topPairs_In in Hin as [Hin _].
  apply (in_map fst) in Hin. apply Hs in Hin.
  intros ->. discriminate Hin.
Qed.

End Coverage.

Section Ingestion.
Import JSMap JSMapFacts.

(** An accepted ticker leaves one more sample and the volume. *)
Lemma ingest_accepted t ticker st sym :
  symbol ticker = Some sym ->
  JS.endsWith sym "USDT" = true ->
  exists st',
    ingest t ticker st = Some st'
    /\ get sym (priceHistory st')
       = Some (match get sym (priceHistory st) with
               | Some samples => samples
               | None => []
               end
               ++ [{| price := lastPrice ticker; timestamp := t |}])
    /\ get sym (volumes st') = Some (turnover24h ticker).
Proof.
  intros Hsym Hend. unfold ingest. rewrite Hsym, Hend.
  eexists. split; [reflexivity|]. cbn [priceHistory volumes].
  split; [|apply get_set_same].
  unfold has. destruct (get sym (priceHistory st)) as [samples|] eqn:E;
    cbn [negb].
  - rewrite E. apply get_set_same.
  - rewrite get_set_same. apply get_set_same.
Qed.

End Ingestion.

(** C10.  In every state the scanner can reach, each entry of the score
    map has a volume, so the floor test of the selector compares that
    volume with the floor.  The invariant behind it, that scored and
    sampled symbols all have volumes, holds after [reset] and is kept by
    [fetchTickers], which stores a sample and a volume together for each
    accepted ticker, and by [calculateVolatility]. *)
Theorem C10_scores_have_volumes :
  (forall st,
      reachable st ->
      forall sym score,
        In (sym, score) (JSMap.entries (volatilityScores st)) ->
        exists volume,
          JSMap.get sym (volumes st) = Some volume
          /\ passesFloor st (sym, score) = JS.ge volume minVolume)
  /\ (forall st, reachable st -> covered st /\ wellFormed st)
  /\ (forall st, covered (reset st))
  /\ (forall st response t,
         covered st -> covered (fetchTickers response t st))
  /\ (forall st now, covered st -> covered (calculateVolatility now st))
  /\ (forall t ticker st sym,
         symbol ticker = Some sym ->
         JS.endsWith sym "USDT" = true ->
         exists st',
           ingest t ticker st = Some st'
           /\ JSMap.has sym (priceHistory st') = true
           /\ JSMap.get sym (volumes st') = Some (turnover24h ticker)).
Proof.
  repeat apply conj.
  - intros st Hreach sym score Hin.
    destruct (reachable_covered st Hreach) as [Hs _].
    assert (Hk : In sym (JSMap.keys (volumes st))).
    { apply Hs. now apply (in_map fst) in Hin. }
    apply JSMapFacts.has_true in Hk. unfold JSMap.has in Hk.
    unfold passesFloor. cbn [fst].
    destruct (JSMap.get sym (volumes st)) as [volume|]; [|discriminate].
    now exists volume.
  - intros st Hreach.
    split; [now apply reachable_covered | now apply reachable_wellFormed].
  - apply covered_reset.
  - intros st response t. apply covered_fetchTickers.
  - intros st now. apply covered_calculateVolatility.
  - intros t ticker st sym Hsym Hend.
    destruct (ingest_accepted t ticker st sym Hsym Hend)
      as (st' & Hi & Hh & Hv).
    exists st'. repeat split; auto.
    unfold JSMap.has. now rewrite Hh.
Qed.

Lemma C10_scores_have_volumes_witness :
  volatilityScores afterTwoFetches <> []
  /\ forall sym score,
       In (sym, score) (JSMap.entries (volatilityScores afterTwoFetches)) ->
       exists volume,
         JSMap.get sym (volumes afterTwoFetches) = Some volume
         /\ passesFloor afterTwoFetches (sym, score)
            = JS.ge volume minVolume.
Proof.
  split.
  - discriminate.
  - apply (proj1 C10_scores_have_volumes).
    unfold afterTwoFetches. repeat constructor.
Defined.

(** * Further properties *)

(** ** What a fetch stores *)

Section Ingest.
Import JSMap JSMapFacts.

Lemma pushed_app t qs1 qs2 log :
  pushed t qs2 (pushed t qs1 log) = pushed t (qs1 ++ qs2) log.
Proof.
  destruct qs1 as [|q1 qs1]; [reflexivity|].
  destruct qs2 as [|q2 qs2].
  - now rewrite app_nil_r.
  - change (pushed t ((q1 :: qs1) ++ q2 :: qs2) log)
      with (Some (match log with
                  | Some samples => samples
                  | None => []
                  end ++ map (sampleOf t) ((q1 :: qs1) ++ q2 :: qs2))).
    rewrite map_app, app_assoc. reflexivity.
Qed.

Lemma stored_app qs1 qs2 volume :
  stored qs2 (stored qs1 volume) = stored (qs1 ++ qs2) volume.
Proof.
  unfold stored. rewrite rev_app_distr.
  destruct (rev qs2) as [|q qs]; [now rewrite app_nil_l | reflexivity].
Qed.

(** What one turn of the callback does to the entries of [sym]. *)
Lemma ingest_effect t ticker st st' sym :
  JS.endsWith sym "USDT" = true ->
  ingest t ticker st = Some st' ->
  get sym (priceHistory st')
  = pushed t (filter (quotes sym) [ticker]) (get sym (priceHistory st))
  /\ get sym (volumes st')
     = stored (filter (quotes sym) [ticker]) (get sym (volumes st)).
Proof.
  intros Hend Hi. unfold ingest in Hi. cbn [filter]. unfold quotes.
  destruct (symbol ticker) as [s|]; [|discriminate].
  destruct (String.eqb_spec s sym) as [-> | Hne].
  - rewrite Hend in Hi. injection Hi as <-. cbn [priceHistory volumes].
    split; [|apply get_set_same].
    unfold has, pushed. cbn [map].
    destruct (get sym (priceHistory st)) as [samples|] eqn:E; cbn [negb].
    + rewrite E. apply get_set_same.
    + rewrite get_set_same. apply get_set_same.
  - destruct (JS.endsWith s "USDT"); injection Hi as <-; auto.
    cbn [priceHistory volumes pushed stored rev].
    split; [|now apply get_set_other].
    unfold has.
    destruct (get s (priceHistory st)) as [samples|] eqn:E; cbn [negb].
    + rewrite E. now apply get_set_other.
    + rewrite get_set_same, !get_set_other by assumption. reflexivity.
Qed.

(** A symbol that does not end in USDT is not touched. *)
Lemma ingest_other t ticker st st' sym :
  JS.endsWith sym "USDT" = false ->
  ingest t ticker st = Some st' ->
  get sym (priceHistory st') = get sym (priceHistory st)
  /\ get sym (volumes st') = get sym (volumes st).
Proof.
  intros Hend Hi. unfold ingest in Hi.
  destruct (symbol ticker) as [s|]; [|discriminate].
  destruct (JS.endsWith s "USDT") eqn:Es; injection Hi as <-; auto.
  assert (Hne : s <> sym) by congruence.
  cbn [priceHistory volumes]. split; [|now apply get_set_other].
  unfold has.
  destruct (get s (priceHistory st)) as [samples|] eqn:E; cbn [negb].
  + rewrite E. now apply get_set_other.
  + rewrite get_set_same, !get_set_other by assumption. reflexivity.
Qed.

Lemma forEach_ingest_effect t sym :
  JS.endsWith sym "USDT" = true ->
  forall l st,
    get sym (priceHistory (fst (forEach_ingest t l st)))
    = pushed t (filter (quotes sym) (ingested l)) (get sym (priceHistory st))
    /\ get sym (volumes (fst (forEach_ingest t l st)))
       = stored (filter (quotes sym) (ingested l)) (get sym (volumes st)).
Proof.
  intros Hend. induction l as [|ticker l IH]; intros st; [now split|].
  cbn [forEach_ingest ingested].
  destruct (ingest t ticker st) as [st'|] eqn:Hi.
  - assert (Hs : exists s, symbol ticker = Some s).
    { unfold ingest in Hi. destruct (symbol ticker); [eauto | discriminate]. }
    destruct Hs as [s Hs]. rewrite Hs.
    destruct (IH st') as [IHh IHv].
    destruct (ingest_effect t ticker st st' sym Hend Hi) as [Hh Hv].
    rewrite IHh, IHv, Hh, Hv, pushed_app, stored_app.
    change (ticker :: ingested l) with ([ticker] ++ ingested l).
    now rewrite filter_app.
  - unfold ingest in Hi. destruct (symbol ticker) as [s|].
    + destruct (JS.endsWith s "USDT"); discriminate.
    + now split.
Qed.

Lemma forEach_ingest_other t sym :
  JS.endsWith sym "USDT" = false ->
  forall l st,
    get sym (priceHistory (fst (forEach_ingest t l st)))
    = get sym (priceHistory st)
    /\ get sym (volumes (fst (forEach_ingest t l st)))
       = get sym (volumes st).
Proof.
  intros Hend. induction l as [|ticker l IH]; intros st; [now split|].
  cbn [forEach_ingest].
  destruct (ingest t ticker st) as [st'|] eqn:Hi; [|now split].
  destruct (IH st') as [IHh IHv].
  destruct (ingest_other t ticker st st' sym Hend Hi) as [Hh Hv].
  split; congruence.
Qed.

Lemma fetchTickers_maps response t st :
  priceHistory (fetchTickers response t st)
  = match response with
    | Rejected _ => priceHistory st
    | Resolved l => priceHistory (fst (forEach_ingest t l st))
    end
  /\ volumes (fetchTickers response t st)
     = match response with
       | Rejected _ => volumes st
       | Resolved l => volumes (fst (forEach_ingest t l st))
       end.
Proof.
  unfold fetchTickers. destruct response as [e | l]; [now split|].
  destruct (forEach_ingest t l st) as [st' [e|]]; now split.
Qed.

Lemma forEach_ingest_scores t l : forall st,
  volatilityScores (fst (forEach_ingest t l st)) = volatilityScores st.
Proof.
  induction l as [|ticker l IH]; intros st; [reflexivity|].
  cbn [forEach_ingest].
  destruct (ingest t ticker st) as [st'|] eqn:Hi; [|reflexivity].
  rewrite IH. now destruct (ingest_scores _ _ _ _ Hi).
Qed.


End Ingest.

(** X1.  One call of [fetchTickers], symbol by symbol.  For a symbol
    that ends in USDT the log gains one sample for each quote of it in
    the reply, in the order of the reply and all with the one clock
    reading, and its volume becomes that of the last such quote; the
    quotes behind an element without a symbol are not reached.  The log
    and the volume of any other symbol are as before, a failed request
    changes neither map, and the scores are never touched. *)
Theorem fetchTickers_effect :
  forall (response : Snapshot) (t : Z) (st : SymbolScanner) (sym : string),
    let st' := fetchTickers response t st in
    let qs := filter (quotes sym) (ingested (listed response)) in
    (JS.endsWith sym "USDT" = true ->
     JSMap.get sym (priceHistory st')
     = pushed t qs (JSMap.get sym (priceHistory st))
     /\ JSMap.get sym (volumes st')
        = stored qs (JSMap.get sym (volumes st)))
    /\ (JS.endsWith sym "USDT" = false ->
        JSMap.get sym (priceHistory st') = JSMap.get sym (priceHistory st)
        /\ JSMap.get sym (volumes st') = JSMap.get sym (volumes st))
    /\ volatilityScores st' = volatilityScores st.
Proof.
  intros response t st sym st' qs. subst st' qs.
  destruct (fetchTickers_maps response t st) as [Hh Hv].
  rewrite Hh, Hv.
  destruct response as [e | l]; cbn [listed ingested filter pushed stored rev].
  - repeat split; reflexivity.
  - split; [intros Hend; now apply forEach_ingest_effect |].
    split; [intros Hend; now apply forEach_ingest_other |].
    unfold fetchTickers.
    pose proof (forEach_ingest_scores t l st) as Hs.
    destruct (forEach_ingest t l st) as [st' [e|]]; exact Hs.
Qed.

Lemma fetchTickers_effect_witness :
  JS.endsWith "BTCUSDT" "USDT" = true
  /\ JSMap.get "BTCUSDT"
       (priceHistory
          (fetchTickers (oneQuote 101 20000000) 2000 afterOneFetch))
     = Some [ {| price := 100; timestamp := 1000 |};
              {| price := 101; timestamp := 2000 |} ]
  /\ JSMap.get "BTCUSDT"
       (volumes (fetchTickers (oneQuote 101 20000000) 2000 afterOneFetch))
     = Some 20000000%float.
Proof.
  split; [reflexivity|].
  exact (proj1 (fetchTickers_effect (oneQuote 101 20000000) 2000
                  afterOneFetch "BTCUSDT") eq_refl).
Defined.

(** ** Pruning and the estimate *)

Section PruneList.
Import JSMap JSMapFacts.

Lemma set_in_place {V} k (v v0 : V) l1 l2 :
  ~ In k (keys l1) ->
  set k v (l1 ++ (k, v0) :: l2) = l1 ++ (k, v) :: l2.
Proof.
  induction l1 as [|[k' v'] l1 IH]; intros Hnin; cbn [app set].
  - now rewrite String.eqb_refl.
  - destruct (String.eqb_spec k k') as [-> | Hne].
    + exfalso. apply Hnin. now left.
    + rewrite IH; auto. intros H. apply Hnin. now right.
Qed.

Lemma keys_map_prunedEntry now l :
  keys (map (prunedEntry now) l) = keys l.
Proof. unfold keys. rewrite map_map. reflexivity. Qed.

Lemma fold_pruneEntry_list now l2 : forall l1,
  NoDup (keys (l1 ++ l2)) ->
  fold_left (pruneEntry now) l2 (map (prunedEntry now) l1 ++ l2)
  = map (prunedEntry now) (l1 ++ l2).
Proof.
  induction l2 as [|[k v] l2 IH]; intros l1 Hnd.
  - now rewrite !app_nil_r.
  - cbn [fold_left]. rewrite pruneEntry_set, set_in_place.
    + replace (l1 ++ (k, v) :: l2) with ((l1 ++ [(k, v)]) ++ l2) in *
        by (now rewrite <- app_assoc).
      rewrite <- IH by assumption.
      now rewrite map_app, <- app_assoc.
    + rewrite keys_map_prunedEntry. unfold keys in *.
      rewrite map_app in Hnd. cbn [map fst] in Hnd.
      apply NoDup_remove_2 in Hnd. intros H. apply Hnd.
      apply in_or_app. now left.
Qed.

Lemma cleanupOldData_list now st :
  wf (priceHistory st) ->
  priceHistory (cleanupOldData now st)
  = map (prunedEntry now) (priceHistory st).
Proof.
  intros Hwf. unfold cleanupOldData, entries. cbn [priceHistory].
  exact (fold_pruneEntry_list now (priceHistory st) [] Hwf).
Qed.

Lemma filter_filter_implied {A} (p q : A -> bool) l :
  (forall x, p x = true -> q x = true) ->
  filter p (filter q l) = filter p l.
Proof.
  intros Himp. induction l as [|x l IH]; [reflexivity|]. cbn [filter].
  destruct (q x) eqn:Eq; cbn [filter].
  - now rewrite IH.
  - destruct (p x) eqn:Ep; [|exact IH].
    apply Himp in Ep. congruence.
Qed.

Lemma scoredEntries_pruned now now' l :
  now <= now' + 60000 ->
  scoredEntries now' (map (prunedEntry now) l) = scoredEntries now' l.
Proof.
  intros Hle. unfold scoredEntries.
  induction l as [|[k v] l IH]; [reflexivity|].
  cbn [map flat_map prunedEntry fst snd]. rewrite IH. f_equal.
  replace (relevantPrices now' (filter (retained now) v))
    with (relevantPrices now' v); [reflexivity|].
  unfold relevantPrices. symmetry. apply filter_filter_implied.
  intros p Hp. unfold retained. apply Z.geb_le in Hp. apply Z.leb_le. lia.
Qed.

Lemma findBestPerformer_ext st1 st2 :
  volatilityScores st1 = volatilityScores st2 ->
  volumes st1 = volumes st2 ->
  hasErrorThisMinute st1 = hasErrorThisMinute st2 ->
  findBestPerformer st1 = findBestPerformer st2.
Proof.
  intros Hs Hv He.
  unfold findBestPerformer, topPairs, eligiblePairs, passesFloor,
    comparePairs.
  now rewrite Hs, Hv, He.
Qed.

End PruneList.

(** X2.  Pruning does not show in the estimate: when the history holds
    each symbol once and the pruning instant is at most 60 seconds
    later than the instant of the estimation, the scores, and with them
    the result of [findBestPerformer], are the same with the pruning
    as without it. *)
Theorem cleanupOldData_keeps_scores :
  forall (now now' : Z) (st : SymbolScanner),
    JSMap.wf (priceHistory st) ->
    now <= now' + 60000 ->
    volatilityScores (calculateVolatility now' (cleanupOldData now st))
    = volatilityScores (calculateVolatility now' st)
    /\ findBestPerformer (calculateVolatility now' (cleanupOldData now st))
       = findBestPerformer (calculateVolatility now' st).
Proof.
  intros now now' st Hwf Hle.
  assert (Hs : volatilityScores
                 (calculateVolatility now' (cleanupOldData now st))
               = volatilityScores (calculateVolatility now' st)).
  { rewrite !calculateVolatility_scoredEntries.
    - rewrite cleanupOldData_list by assumption.
      now apply scoredEntries_pruned.
    - assumption.
    - unfold JSMap.wf. now rewrite cleanupOldData_keys. }
  split; [exact Hs |].
  now apply findBestPerformer_ext.
Qed.

Lemma oldAndNew_wf : JSMap.wf (priceHistory oldAndNew).
Proof.
  unfold JSMap.wf. cbn. constructor; [intros [] | constructor].
Defined.

Lemma cleanupOldData_keeps_scores_witness :
  JSMap.wf (priceHistory oldAndNew)
  /\ 200000 <= 200000 + 60000
  /\ volatilityScores
       (calculateVolatility 200000 (cleanupOldData 200000 oldAndNew))
     = volatilityScores (calculateVolatility 200000 oldAndNew).
Proof.
  refine (conj oldAndNew_wf (conj _ _)); [lia|].
  refine (proj1 (cleanupOldData_keeps_scores 200000 200000 oldAndNew
                   oldAndNew_wf _)).
  lia.
Defined.

(** X3.  Pruning at an instant and again at a later one leaves what
    pruning at the later instant alone leaves. *)
Theorem cleanupOldData_compose :
  forall (now1 now2 : Z) (st : SymbolScanner),
    JSMap.wf (priceHistory st) ->
    now1 <= now2 ->
    cleanupOldData now2 (cleanupOldData now1 st) = cleanupOldData now2 st.
Proof.
  intros now1 now2 st Hwf Hle.
  assert (Hh : priceHistory (cleanupOldData now2 (cleanupOldData now1 st))
               = priceHistory (cleanupOldData now2 st)).
  { rewrite (cleanupOldData_list now2 (cleanupOldData now1 st))
      by (unfold JSMap.wf; now rewrite cleanupOldData_keys).
    rewrite !cleanupOldData_list by assumption.
    rewrite map_map. apply map_ext. intros [k v].
    unfold prunedEntry. cbn [fst snd]. f_equal.
    apply filter_filter_implied.
    intros p Hp. unfold retained in *. apply Z.leb_le in Hp.
    apply Z.leb_le. lia. }
  unfold cleanupOldData at 1 3. unfold cleanupOldData in Hh at 1 3.
  cbn [priceHistory] in Hh. rewrite Hh. reflexivity.
Qed.

Lemma cleanupOldData_compose_witness :
  JSMap.wf (priceHistory oldAndNew)
  /\ 100000 <= 200000
  /\ cleanupOldData 200000 (cleanupOldData 100000 oldAndNew)
     = cleanupOldData 200000 oldAndNew.
Proof.
  refine (conj oldAndNew_wf (conj _ _)); [lia|].
  apply (cleanupOldData_compose 100000 200000 oldAndNew oldAndNew_wf).
  lia.
Defined.

(** ** Clear winners and full ties *)

Section Selection.

Lemma sub_self_not_gt (x : float) : JS.gt (x - x) 0 = false.
Proof.
  unfold JS.gt. rewrite ltb_spec, sub_spec.
  change (Prim2SF 0) with (S754_zero false).
  destruct (Prim2SF x) as [s|s| |s m e]; try (destruct s); try reflexivity.
  all: unfold SF64sub; cbn [SFsub]; rewrite Z.sub_diag; reflexivity.
Qed.

Lemma sort_insert_first {A} (cmp : A -> A -> float) a l :
  (forall b, In b l -> JS.gt (cmp a b) 0 = false) ->
  JS.sort_insert cmp a l = a :: l.
Proof.
  destruct l as [|b l]; [reflexivity|]. intros H. cbn [JS.sort_insert].
  now rewrite (H b (or_introl eq_refl)).
Qed.

(** Nothing is moved when no element is to go behind a later one. *)
Lemma sort_unmoved {A} (cmp : A -> A -> float) l :
  (forall a b, In a l -> In b l -> JS.gt (cmp a b) 0 = false) ->
  JS.sort cmp l = l.
Proof.
  induction l as [|a l IH]; intros H; [reflexivity|].
  cbn [JS.sort fold_right]. fold (JS.sort cmp l).
  rewrite IH by (intros; apply H; now right).
  apply sort_insert_first. intros b Hb. apply H; [now left | now right].
Qed.

End Selection.



(** X5.  When the eligible symbols all trade one volume and score
    within 0.0001 of one another, the sort moves nothing: the winner
    is the first eligible symbol in the order of the score map. *)
Theorem findBestPerformer_full_tie :
  forall (st : SymbolScanner) (volume : float),
    (forall sym score,
        In (sym, score) (eligiblePairs st) ->
        JSMap.get sym (volumes st) = Some volume) ->
    (forall symA scoreA symB scoreB,
        In (symA, scoreA) (eligiblePairs st) ->
        In (symB, scoreB) (eligiblePairs st) ->
        (JS.Math_abs (scoreB - scoreA) <=? 0.0001)%float = true) ->
    topPairs st = eligiblePairs st
    /\ findBestPerformer st
       = match eligiblePairs st with
         | [] =>
             {| res_symbol := None;
                res_moves := 0;
                res_hasError := hasErrorThisMinute st |}
         | (sym, score) :: _ =>
             {| res_symbol := Some sym;
                res_moves := JS.Math_round (score * 100);
                res_hasError := hasErrorThisMinute st |}
         end.
Proof.
  intros st volume Hvol Htie.
  assert (Htop : topPairs st = eligiblePairs st).
  { unfold topPairs. apply sort_unmoved.
    intros [symA scoreA] [symB scoreB] HA HB. unfold comparePairs.
    rewrite (le_not_gt _ _ (Htie _ _ _ _ HA HB)).
    rewrite (Hvol _ _ HA), (Hvol _ _ HB). cbn [JS.toNumber].
    apply sub_self_not_gt. }
  split; [exact Htop |].
  unfold findBestPerformer. now rewrite Htop.
Qed.

Lemma findBestPerformer_full_tie_witness :
  (forall sym score,
      In (sym, score) (eligiblePairs evenPair) ->
      JSMap.get sym (volumes evenPair) = Some 20000000%float)
  /\ res_symbol (findBestPerformer evenPair) = Some "AUSDT".
Proof.
  assert (Hvol : forall sym score,
             In (sym, score) (eligiblePairs evenPair) ->
             JSMap.get sym (volumes evenPair) = Some 20000000%float).
  { intros sym score [H | [H | []]]; injection H as <- <-; reflexivity. }
  split; [exact Hvol|].
  assert (Htie : forall symA scoreA symB scoreB,
             In (symA, scoreA) (eligiblePairs evenPair) ->
             In (symB, scoreB) (eligiblePairs evenPair) ->
             (JS.Math_abs (scoreB - scoreA) <=? 0.0001)%float = true).
  { intros symA scoreA symB scoreB [HA | [HA | []]] [HB | [HB | []]];
      injection HA as <- <-; injection HB as <- <-; reflexivity. }
  rewrite (proj2 (findBestPerformer_full_tie evenPair 20000000 Hvol Htie)).
  reflexivity.
Defined.

(** ** A minute of ticks *)

Section Minute.






Lemma publishable_iff st :
  publishable (findBestPerformer st) = true
  <-> (hasErrorThisMinute st = false
       /\ JS.truthy (res_symbol (findBestPerformer st)) = true).
Proof.
  unfold publishable. rewrite findBestPerformer_hasError.
  rewrite andb_true_iff, negb_true_iff. reflexivity.
Qed.

End Minute.




(** ** Where the samples come from *)

Section Provenance.
Import JSMap.






End Provenance.



(** ** The symbols kept *)

Section Suffix.
Local Open Scope string_scope.

Lemma substring_all s : substring 0 (String.length s) s = s.
Proof. induction s as [|c s IH]; cbn; congruence. Qed.

Lemma substring_skip pre m suf :
  substring (String.length pre) m (pre ++ suf) = substring 0 m suf.
Proof.
  induction pre as [|c pre IH]; [reflexivity|]. cbn. exact IH.
Qed.

Lemma substring_split s : forall i,
  (i <= String.length s)%nat ->
  s = substring 0 i s ++ substring i (String.length s - i) s.
Proof.
  induction s as [|c s IH]; intros i Hi.
  - destruct i; [reflexivity | cbn in Hi; lia].
  - destruct i as [|i].
    + cbn [substring]. rewrite Nat.sub_0_r.
      change (String.length (String c s)) with (S (String.length s)).
      cbn [substring append]. now rewrite substring_all.
    + cbn in Hi. cbn [substring String.length Nat.sub append].
      f_equal. apply IH. lia.
Qed.

(** [endsWith] holds of the strings that are a string followed by the
    suffix. *)
Lemma endsWith_iff s suffix :
  JS.endsWith s suffix = true <-> exists pre, s = pre ++ suffix.
Proof.
  unfold JS.endsWith. rewrite andb_true_iff, Nat.leb_le, String.eqb_eq.
  split.
  - intros [Hle Hsub].
    exists (substring 0 (String.length s - String.length suffix) s).
    rewrite (substring_split s (String.length s - String.length suffix))
      at 1 by lia.
    f_equal. rewrite <- Hsub at 3. f_equal. lia.
  - intros [pre ->].
    rewrite string_length_app. split; [lia|].
    replace (String.length pre + String.length suffix
             - String.length suffix)%nat
      with (String.length pre) by lia.
    rewrite substring_skip. apply substring_all.
Qed.

End Suffix.

Section OnlyUSDT.
Import JSMap JSMapFacts.

Lemma onlyUSDT_split st :
  onlyUSDT st <->
  quotedInUSDT st
  /\ (forall k, In k (keys (volumes st)) -> JS.endsWith k "USDT" = true).
Proof.
  unfold onlyUSDT, quotedInUSDT. split.
  - intros H. repeat split; intros k Hk; apply H; auto.
  - intros [[Hh Hs] Hv] k [Hk | [Hk | Hk]]; auto.
Qed.

Lemma volumes_USDT_ingest t ticker st st' :
  ingest t ticker st = Some st' ->
  (forall k, In k (keys (volumes st)) -> JS.endsWith k "USDT" = true) ->
  (forall k, In k (keys (volumes st')) -> JS.endsWith k "USDT" = true).
Proof.
  unfold ingest. destruct (symbol ticker) as [s|]; [|discriminate].
  destruct (JS.endsWith s "USDT") eqn:Hend; intros [= <-]; auto.
  intros Hv k Hk. cbn [volumes] in Hk.
  apply In_keys_set in Hk as [-> | Hk]; auto.
Qed.

Lemma reachable_onlyUSDT st : reachable st -> onlyUSDT st.
Proof.
  intros Hreach. apply onlyUSDT_split.
  split; [now apply reachable_quotedInUSDT |].
  revert st Hreach.
  apply (reachable_invariant
           (fun st => forall k, In k (keys (volumes st)) ->
                                JS.endsWith k "USDT" = true)).
  - intros st k [].
  - apply (fetchTickers_invariant
             (fun st => forall k, In k (keys (volumes st)) ->
                                  JS.endsWith k "USDT" = true));
      eauto using volumes_USDT_ingest.
  - auto.
  - auto.
Qed.

End OnlyUSDT.

(** X8.  In every state the methods build from a fresh scanner, each
    key of the history, of the scores and of the volumes ends in USDT,
    and so does the winner when there is one. *)
Theorem reachable_symbols_end_in_USDT :
  forall st : SymbolScanner,
    reachable st ->
    (forall k,
        In k (JSMap.keys (priceHistory st))
        \/ In k (JSMap.keys (volatilityScores st))
        \/ In k (JSMap.keys (volumes st)) ->
        exists base, k = (base ++ "USDT")%string)
    /\ (forall sym,
           res_symbol (findBestPerformer st) = Some sym ->
           exists base, sym = (base ++ "USDT")%string).
Proof.
  intros st Hreach.
  pose proof (reachable_onlyUSDT st Hreach) as Honly.
  split.
  - intros k Hk. apply endsWith_iff. now apply Honly.
  - intros sym Hwin. apply endsWith_iff.
    apply findBestPerformer_winner in Hwin as (score & rest & Htop & _).
    assert (Hin : In (sym, score) (topPairs st)) by (rewrite Htop; now left).
    apply topPairs_In in Hin as [Hin _].
    apply Honly. right; left. now apply (in_map fst) in Hin.
Qed.

Lemma afterTwoFetches_reachable : reachable afterTwoFetches.
Proof.
  unfold afterTwoFetches.
  apply reach_calculateVolatility, reach_fetchTickers, reach_fetchTickers,
    reach_new.
Defined.

Lemma reachable_symbols_end_in_USDT_witness :
  reachable afterTwoFetches
  /\ exists base, "BTCUSDT" = (base ++ "USDT")%string.
Proof.
  split; [exact afterTwoFetches_reachable|].
  apply (proj1 (reachable_symbols_end_in_USDT afterTwoFetches
                  afterTwoFetches_reachable)).
  left. left. reflexivity.
Defined.

(** X9.  What an emitted event tells.  Either server emits only at
    second 59 and with the error flag down; the event names a
    non-empty symbol that has a score and passes the volume floor, and
    its moves are that score times 100, rounded; a tick emits at most
    one event. *)
Theorem emitted_event_facts :
  forall (env : Env) (st : SymbolScanner) (p : Payload),
    In (Emit p) (actions (Server.processMinute env st))
    \/ In (Emit p) (actions (Part000.processMinute env st)) ->
    getSeconds (now env) = 59
    /\ hasErrorThisMinute st = false
    /\ (exists sym score,
           pl_symbol p = Some sym
           /\ sym <> ""
           /\ In (sym, score) (JSMap.entries (volatilityScores st))
           /\ passesFloor st (sym, score) = true
           /\ pl_moves p = JS.Math_round (score * 100))
    /\ (List.length (filter isEmit (actions (Server.processMinute env st)))
        <= 1)%nat
    /\ (List.length (filter isEmit (actions (Part000.processMinute env st)))
        <= 1)%nat.
Proof.
  intros env st p Hemit.
  assert (Hs : getSeconds (now env) = 59).
  { destruct (server_phases env st) as (S0 & Smid & _).
    destruct (part000_phases env st) as (P0 & Pmid & _).
    pose proof (getSeconds_range (now env)) as Hr.
    destruct (Z.eq_dec (getSeconds (now env)) 59) as [E | N]; [exact E|].
    exfalso.
    destruct (Z.eq_dec (getSeconds (now env)) 0) as [E0 | N0].
    - destruct (S0 E0) as [HS _]. destruct (P0 E0) as [HP _].
      rewrite HS, HP in Hemit.
      destruct Hemit as [[H | [H | [H | []]]] | [H | [H | [H | []]]]];
        discriminate.
    - assert (Hm : 1 <= getSeconds (now env) <= 58) by lia.
      destruct (Smid Hm) as [HS _]. destruct (Pmid Hm) as [HP _].
      rewrite HS, HP in Hemit.
      destruct Hemit as [[H | [H | []]] | [H | [H | []]]]; discriminate. }
  assert (Hpub : publishable (findBestPerformer st) = true
                 /\ pl_symbol p = res_symbol (findBestPerformer st)
                 /\ pl_moves p = res_moves (findBestPerformer st)).
  { rewrite server_actions_59, part000_actions_59 in Hemit by assumption.
    cbn [actions] in Hemit.
    unfold Server.finalizePhase, Part000.finalizePhase in Hemit.
    cbn [Z.eqb Pos.eqb] in Hemit.
    destruct (publishable (findBestPerformer st)).
    - split; [reflexivity|].
      destruct Hemit as [[H | [H | []]] | Hemit]; try discriminate.
      + injection H as <-. now split.
      + destruct (lookup env) as [e | l]; cbn [snd] in Hemit.
        * destruct Hemit as [H | [H | []]]; discriminate.
        * destruct (find (Part000.sameSymbol (findBestPerformer st)) l);
            cbn [snd] in Hemit.
          -- destruct Hemit as [H | [H | [H | []]]]; try discriminate.
             injection H as <-. now split.
          -- destruct Hemit as [H | [H | []]]; discriminate.
    - cbn [snd] in Hemit.
      destruct Hemit as [[H | []] | [H | []]]; discriminate. }
  destruct Hpub as (Hpub & Hsym & Hmoves).
  apply publishable_iff in Hpub as [Herr Htruthy].
  split; [exact Hs|]. split; [exact Herr|]. split.
  - rewrite <- Hsym in Htruthy. destruct (pl_symbol p) as [sym|] eqn:Ep;
      [|discriminate].
    symmetry in Hsym.
    destruct (findBestPerformer_winner st sym Hsym)
      as (score & rest & Htop & Hm).
    assert (Hin : In (sym, score) (topPairs st)) by (rewrite Htop; now left).
    apply topPairs_In in Hin as [Hin Hpass].
    exists sym, score. repeat split; auto.
    + intros ->. discriminate.
    + congruence.
  - rewrite server_actions_59, part000_actions_59 by assumption.
    cbn [actions]. unfold Server.finalizePhase, Part000.finalizePhase.
    cbn [Z.eqb Pos.eqb].
    destruct (publishable (findBestPerformer st)); cbn.
    + destruct (lookup env) as [e | l]; cbn; [lia|].
      destruct (find (Part000.sameSymbol (findBestPerformer st)) l); cbn;
        lia.
    + lia.
Qed.

Lemma threeScored_emits :
  In (Emit (Server.payload (findBestPerformer threeScored)))
    (actions (Server.processMinute secondLast threeScored)).
Proof. right. left. reflexivity. Defined.

Lemma emitted_event_facts_witness :
  In (Emit (Server.payload (findBestPerformer threeScored)))
    (actions (Server.processMinute secondLast threeScored))
  /\ getSeconds (now secondLast) = 59
  /\ hasErrorThisMinute threeScored = false.
Proof.
  split; [exact threeScored_emits|].
  pose proof (emitted_event_facts secondLast threeScored _
                (or_introl threeScored_emits)) as (H1 & H2 & _).
  exact (conj H1 H2).
Defined.

(** ** Time stamps as numbers *)

Section Integers.

Lemma digits2_iter_xO p k :
  Zpos (digits2_pos (Pos.iter xO p k)) = Zpos (digits2_pos p) + Zpos k.
Proof.
  induction k as [|k IH] using Pos.peano_ind.
  - cbn [Pos.iter digits2_pos]. lia.
  - rewrite Pos.iter_succ. cbn [digits2_pos]. lia.
Qed.

(** The binary64 form of a positive integer below 2^53: its digits,
    moved up to 53 places. *)
Lemma binary_normalize_small p :
  Zpos p < 2 ^ 53 ->
  binary_normalize prec emax (Zpos p) 0 false
  = S754_finite false
      (fst (shl_align p 0 (Zpos (digits2_pos p) - 53)))
      (Zpos (digits2_pos p) - 53).
Proof.
  intros Hlt.
  assert (Hd : Zpos (digits2_pos p) <= 53).
  { pose proof (digits2_lower p) as Hlow.
    destruct (Z.le_gt_cases (Zpos (digits2_pos p)) 53) as [H | H]; auto.
    exfalso.
    assert (2 ^ 53 <= 2 ^ (Zpos (digits2_pos p) - 1))
      by (apply Z.pow_le_mono_r; lia).
    lia. }
  cbn [binary_normalize]. unfold binary_round.
  replace (fexp prec emax (Zpos (digits2_pos p) + 0))
    with (Zpos (digits2_pos p) - 53)
    by (unfold fexp, SpecFloat.emin, prec, emax; lia).
  set (d := Zpos (digits2_pos p)) in *.
  assert (Hshift : exists mz,
             shl_align p 0 (d - 53) = (mz, d - 53)
             /\ Zpos (digits2_pos mz) = 53).
  { unfold shl_align. rewrite Z.sub_0_r.
    destruct (d - 53) as [|k|k] eqn:Ek; try lia.
    - exists p. split; [reflexivity | fold d; lia].
    - eexists. split; [reflexivity|]. rewrite digits2_iter_xO. fold d. lia. }
  destruct Hshift as (mz & -> & Hmz). cbn [fst].
  unfold binary_round_aux, shr_fexp. cbn [Zdigits2]. rewrite Hmz.
  replace (fexp prec emax (53 + (d - 53)) - (d - 53)) with 0
    by (unfold fexp, SpecFloat.emin, prec, emax; lia).
  cbn [shr shr_record_of_loc shr_m loc_of_shr_record round_nearest_even
       Zdigits2].
  rewrite Hmz.
  replace (fexp prec emax (53 + (d - 53)) - (d - 53)) with 0
    by (unfold fexp, SpecFloat.emin, prec, emax; lia).
  cbn [shr shr_record_of_loc shr_m].
  destruct (Z.leb_spec (d - 53) (emax - prec)) as [H | H]; [reflexivity|].
  unfold emax, prec in H. lia.
Qed.

Lemma ofZ_Prim2SF z :
  0 < z < 2 ^ 53 ->
  exists p,
    z = Zpos p
    /\ Prim2SF (JS.ofZ z)
       = S754_finite false
           (fst (shl_align p 0 (Zpos (digits2_pos p) - 53)))
           (Zpos (digits2_pos p) - 53).
Proof.
  intros [Hpos Hlt]. destruct z as [|p|p]; try lia.
  exists p. split; [reflexivity|].
  unfold JS.ofZ. cbn [Z.ltb Z.compare].
  rewrite FloatAxioms.of_uint63_spec, Uint63.of_Z_spec.
  rewrite Z.mod_small.
  - now apply binary_normalize_small.
  - split; [lia|]. eapply Z.lt_trans; [exact Hlt|]. reflexivity.
Qed.

Lemma shifted_value p :
  Zpos (digits2_pos p) <= 53 ->
  Zpos (fst (shl_align p 0 (Zpos (digits2_pos p) - 53)))
  = Zpos p * 2 ^ (53 - Zpos (digits2_pos p)).
Proof.
  intros Hd. rewrite shl_align_value by lia. f_equal. f_equal. lia.
Qed.

(** On the integers from 1 to 2^53 the order of the numbers is the
    order of the integers. *)
Lemma ofZ_lt z1 z2 :
  0 < z1 -> z1 < z2 -> z2 < 2 ^ 53 -> JS.lt (JS.ofZ z1) (JS.ofZ z2) = true.
Proof.
  intros H1 H12 H2.
  destruct (ofZ_Prim2SF z1) as (p1 & -> & E1); [lia|].
  destruct (ofZ_Prim2SF z2) as (p2 & -> & E2); [lia|].
  unfold JS.lt. rewrite FloatAxioms.ltb_spec, E1, E2. unfold SFltb. cbn [SFcompare].
  pose proof (digits2_lower p1) as L1. pose proof (digits2_upper p1) as U1.
  pose proof (digits2_lower p2) as L2. pose proof (digits2_upper p2) as U2.
  set (d1 := Zpos (digits2_pos p1)) in *.
  set (d2 := Zpos (digits2_pos p2)) in *.
  assert (Hd2 : d2 <= 53).
  { destruct (Z.le_gt_cases d2 53) as [H | H]; auto. exfalso.
    assert (2 ^ 53 <= 2 ^ (d2 - 1)) by (apply Z.pow_le_mono_r; lia). lia. }
  assert (Hd : d1 <= d2).
  { destruct (Z.le_gt_cases d1 d2) as [H | H]; auto. exfalso.
    assert (2 ^ d2 <= 2 ^ (d1 - 1)) by (apply Z.pow_le_mono_r; lia). lia. }
  destruct (Z.compare_spec (d1 - 53) (d2 - 53)) as [E | L | G];
    [ | reflexivity | lia ].
  change (Pos.compare_cont Eq ?a ?b) with (Zpos a ?= Zpos b).
  rewrite !shifted_value by (fold d1 d2; lia). fold d1 d2.
  replace d2 with d1 by lia.
  assert (Hlt : Zpos p1 * 2 ^ (53 - d1) < Zpos p2 * 2 ^ (53 - d1)).
    { apply Z.mul_lt_mono_pos_r; [apply Z.pow_pos_nonneg; lia | lia]. }
    apply Z.compare_lt_iff in Hlt. now rewrite Hlt.
Qed.

Lemma ofZ_pos z : 0 < z < 2 ^ 53 -> JS.gt (JS.ofZ z) 0 = true.
Proof.
  intros Hz. destruct (ofZ_Prim2SF z Hz) as (p & -> & E).
  unfold JS.gt. rewrite FloatAxioms.ltb_spec, E. reflexivity.
Qed.

Lemma ofZ_number z :
  0 < z < 2 ^ 53 -> JSValue.orNumber (JS.ofZ z) 0 = JS.ofZ z.
Proof.
  intros Hz. destruct (ofZ_Prim2SF z Hz) as (p & -> & E).
  unfold JSValue.orNumber, is_nan. rewrite !FloatAxioms.eqb_spec, E.
  unfold SFeqb. cbn [SFcompare]. rewrite Z.compare_refl.
  change (Prim2SF 0) with (S754_zero false). cbn [SFcompare].
  change (Pos.compare_cont Eq ?a ?a) with (Zpos a ?= Zpos a).
  now rewrite Z.compare_refl.
Qed.

Lemma gt_irrefl x : JS.gt x x = false.
Proof.
  destruct (JS.gt x x) eqn:E; [|reflexivity].
  assert (H : JS.lt x x = true) by exact E.
  apply lt_not_gt in H. congruence.
Qed.

End Integers.

(** ** The polling endpoint *)

Section Polling.

Lemma getUpdates_fresh parsed :
  LongPoll.getUpdates parsed LongPoll.lastUpdate0 = None.
Proof. reflexivity. Qed.

Lemma getUpdates_older c lu ts :
  LongPoll.lu_timestamp lu = Some ts ->
  0 <= c < ts -> ts < 2 ^ 53 ->
  LongPoll.getUpdates (JS.ofZ c) lu = Some lu.
Proof.
  intros Hts Hc Hlt. unfold LongPoll.getUpdates. rewrite Hts.
  replace (ts =? 0) with false by (symmetry; apply Z.eqb_neq; lia).
  cbn [negb andb].
  destruct (Z.eq_dec c 0) as [-> | Hne].
  - change (JSValue.orNumber (JS.ofZ 0) 0) with 0%float.
    rewrite ofZ_pos by lia. reflexivity.
  - rewrite ofZ_number by lia.
    assert (H : JS.lt (JS.ofZ c) (JS.ofZ ts) = true)
      by (apply ofZ_lt; lia).
    unfold JS.lt in H. unfold JS.gt. now rewrite H.
Qed.

Lemma getUpdates_not_older c lu ts :
  LongPoll.lu_timestamp lu = Some ts ->
  0 < ts <= c -> c < 2 ^ 53 ->
  LongPoll.getUpdates (JS.ofZ c) lu = None.
Proof.
  intros Hts Hc Hlt. unfold LongPoll.getUpdates. rewrite Hts.
  rewrite ofZ_number by lia.
  destruct (Z.eq_dec ts c) as [-> | Hne].
  - rewrite gt_irrefl, andb_false_r. reflexivity.
  - assert (H' : JS.gt (JS.ofZ ts) (JS.ofZ c) = false).
    { apply lt_not_gt. apply ofZ_lt; lia. }
    rewrite H', andb_false_r. reflexivity.
Qed.

Lemma getUpdates_nan lu ts :
  LongPoll.lu_timestamp lu = Some ts ->
  0 < ts < 2 ^ 53 ->
  LongPoll.getUpdates nan lu = Some lu.
Proof.
  intros Hts Hc. unfold LongPoll.getUpdates. rewrite Hts.
  replace (ts =? 0) with false by (symmetry; apply Z.eqb_neq; lia).
  change (JSValue.orNumber nan 0) with 0%float.
  rewrite ofZ_pos by lia. reflexivity.
Qed.

Lemma server_deliver t env st lu :
  LongPoll.deliver t (actions (Server.processMinute env st)) lu
  = if (getSeconds (now env) =? 59) && publishable (findBestPerformer st)
    then updateOf t (findBestPerformer st)
    else lu.
Proof.
  destruct (getSeconds (now env) =? 59) eqn:Hs.
  - apply Z.eqb_eq in Hs. rewrite server_actions_59 by assumption.
    cbn [actions andb]. unfold Server.finalizePhase. cbn [Z.eqb Pos.eqb].
    destruct (publishable (findBestPerformer st)); reflexivity.
  - rewrite server_actions. unfold Server.finalizePhase. rewrite Hs.
    cbn [andb].
    destruct (getSeconds (now env) =? 0), (getSeconds (now env) <? 59);
      reflexivity.
Qed.

End Polling.

(** X10.  The answers of [/api/updates].  Before the first event every
    poll gets the status 304.  After an event received at the instant
    [t], a poll without a number and a poll with an instant before [t]
    get the update; a poll with [t] or a later instant gets 304. *)
Theorem updates_poll_protocol :
  forall (t : Z) (data : Payload) (old : LongPoll.LastUpdate),
    0 < t < 2 ^ 53 ->
    let lu := LongPoll.onBestPerformerFound t data old in
    (forall parsed, LongPoll.getUpdates parsed LongPoll.lastUpdate0 = None)
    /\ LongPoll.getUpdates nan lu = Some lu
    /\ (forall c, 0 <= c < t -> LongPoll.getUpdates (JS.ofZ c) lu = Some lu)
    /\ (forall c, t <= c < 2 ^ 53 ->
          LongPoll.getUpdates (JS.ofZ c) lu = None).
Proof.
  intros t data old Ht lu.
  refine (conj _ (conj _ (conj _ _))).
  - exact getUpdates_fresh.
  - apply (getUpdates_nan lu t); [reflexivity | lia].
  - intros c Hc. apply (getUpdates_older c lu t); [reflexivity | lia | lia].
  - intros c Hc.
    apply (getUpdates_not_older c lu t); [reflexivity | lia | lia].
Qed.

Lemma updates_poll_protocol_witness :
  0 < 1700000000000 < 2 ^ 53
  /\ LongPoll.getUpdates (JS.ofZ 1699999940000)
       (LongPoll.onBestPerformerFound 1700000000000
          (Server.payload (findBestPerformer threeScored))
          LongPoll.lastUpdate0)
     = Some (updateOf 1700000000000 (findBestPerformer threeScored))
  /\ LongPoll.getUpdates (JS.ofZ 1700000000000)
       (LongPoll.onBestPerformerFound 1700000000000
          (Server.payload (findBestPerformer threeScored))
          LongPoll.lastUpdate0)
     = None.
Proof.
  assert (Ht : 0 < 1700000000000 < 2 ^ 53) by (split; reflexivity).
  split; [exact Ht|].
  pose proof (updates_poll_protocol 1700000000000
                (Server.payload (findBestPerformer threeScored))
                LongPoll.lastUpdate0 Ht) as (_ & _ & Holder & Hsame).
  split.
  - apply (Holder 1699999940000). split; [discriminate | reflexivity].
  - apply (Hsame 1700000000000). split; [discriminate | reflexivity].
Defined.

(** X11.  From a tick to the page.  A page that holds the time stamp
    of the update it last received gets 304.  After one more tick,
    received at a later instant, it gets an update exactly when that
    tick was a second 59 with the error flag down and a winner, and
    the update is that winner with the new time stamp. *)
Theorem server_tick_reaches_page :
  forall (env : Env) (st : SymbolScanner) (lastUpdate : LongPoll.LastUpdate)
         (lastUpdateTime t : Z),
    inSync lastUpdateTime lastUpdate ->
    lastUpdateTime < t < 2 ^ 53 ->
    LongPoll.getUpdates (JS.ofZ lastUpdateTime) lastUpdate = None
    /\ LongPoll.getUpdates (JS.ofZ lastUpdateTime)
         (LongPoll.deliver t (actions (Server.processMinute env st))
            lastUpdate)
       = if (getSeconds (now env) =? 59)
            && negb (hasErrorThisMinute st)
            && JS.truthy (res_symbol (findBestPerformer st))
         then Some (updateOf t (findBestPerformer st))
         else None.
Proof.
  intros env st lu c t Hsync Ht.
  assert (Hold : LongPoll.getUpdates (JS.ofZ c) lu = None).
  { unfold inSync in Hsync.
    destruct (LongPoll.lu_timestamp lu) as [ts|] eqn:Hts.
    - destruct Hsync as [-> Hpos].
      apply (getUpdates_not_older ts lu ts); [assumption | lia | lia].
    - unfold LongPoll.getUpdates. now rewrite Hts. }
  split; [exact Hold|].
  rewrite server_deliver. rewrite <- andb_assoc.
  change (negb (hasErrorThisMinute st)
          && JS.truthy (res_symbol (findBestPerformer st)))
    with (negb (hasErrorThisMinute st)
          && JS.truthy (res_symbol (findBestPerformer st))).
  assert (Hp : publishable (findBestPerformer st)
               = negb (hasErrorThisMinute st)
                 && JS.truthy (res_symbol (findBestPerformer st))).
  { unfold publishable. now rewrite findBestPerformer_hasError. }
  rewrite <- Hp.
  destruct ((getSeconds (now env) =? 59)
            && publishable (findBestPerformer st)); [|exact Hold].
  assert (H0 : 0 <= c).
  { unfold inSync in Hsync.
    destruct (LongPoll.lu_timestamp lu); lia. }
  apply (getUpdates_older c _ t); [reflexivity | lia | lia].
Qed.

Lemma server_tick_reaches_page_witness :
  inSync 0 LongPoll.lastUpdate0
  /\ 0 < 1700000000000 < 2 ^ 53
  /\ LongPoll.getUpdates (JS.ofZ 0)
       (LongPoll.deliver 1700000000000
          (actions (Server.processMinute secondLast threeScored))
          LongPoll.lastUpdate0)
     = Some (updateOf 1700000000000 (findBestPerformer threeScored)).
Proof.
  assert (Ht : 0 < 1700000000000 < 2 ^ 53) by (split; reflexivity).
  refine (conj eq_refl (conj Ht _)).
  exact (proj2 (server_tick_reaches_page secondLast threeScored
                  LongPoll.lastUpdate0 0 1700000000000 eq_refl Ht)).
Defined.

(** ** The history endpoint *)

Section History.

Lemma accepted_step clock data store :
  SymbolsApi.onBestPerformerFound clock data store
  = if accepted data
    then {| SymbolsApi.currentSymbol := Some (symbolDataOf (clock, data));
            SymbolsApi.symbolHistory :=
              filter (newerThan (SymbolsApi.dateNow clock - dayMs))
                (symbolDataOf (clock, data)
                   :: SymbolsApi.symbolHistory store) |}
    else store.
Proof. reflexivity. Qed.

Lemma filter_newer_newer c1 c2 (l : list SymbolsApi.SymbolData) :
  c1 <= c2 ->
  filter (newerThan c2) (filter (newerThan c1) l) = filter (newerThan c2) l.
Proof.
  intros Hc. induction l as [|x l IH]; [reflexivity|].
  cbn [filter].
  destruct (newerThan c1 x) eqn:E1.
  - cbn [filter]. now rewrite IH.
  - rewrite IH.
    replace (newerThan c2 x) with false; [reflexivity|].
    unfold newerThan in *.
    destruct (Z.gtb_spec (SymbolsApi.sd_timestamp x) c1); [discriminate|].
    destruct (Z.gtb_spec (SymbolsApi.sd_timestamp x) c2); [lia | reflexivity].
Qed.

Lemma lastTaken_ordered t events :
  clockOrdered t events -> t <= lastTaken t events.
Proof.
  revert t. induction events as [|ev rest IH]; intros t Hord.
  - cbn. lia.
  - destruct Hord as [Hle Hrest]. unfold lastTaken. cbn [fold_left].
    fold (lastTaken (if accepted (snd ev)
                     then SymbolsApi.dateNow (fst ev) else t) rest).
    destruct (accepted (snd ev)).
    + specialize (IH _ Hrest). lia.
    + apply IH. clear IH.
      revert Hrest Hle. generalize (SymbolsApi.dateNow (fst ev)).
      destruct rest as [|ev' rest']; [intros; exact I|].
      intros z [H1 H2] Hle. split; [lia | assumption].
Qed.

Lemma clockOrdered_weaken t t' events :
  t' <= t -> clockOrdered t events -> clockOrdered t' events.
Proof.
  destruct events as [|ev rest]; [intros; exact I|].
  intros Hle [H1 H2]. split; [lia | assumption].
Qed.

(** The history, once the last event taken before was at [t] and the
    list was cut there. *)
Lemma deliverAll_history events :
  forall t store,
    clockOrdered t events ->
    SymbolsApi.symbolHistory store
    = filter (newerThan (t - dayMs)) (SymbolsApi.symbolHistory store) ->
    SymbolsApi.symbolHistory (SymbolsApi.deliverAll events store)
    = filter (newerThan (lastTaken t events - dayMs))
        (rev (map symbolDataOf (filter (fun ev => accepted (snd ev)) events))
         ++ SymbolsApi.symbolHistory store).
Proof.
  induction events as [|ev rest IH]; intros t store Hord Hcut.
  - cbn. exact Hcut.
  - destruct Hord as [Hle Hrest].
    unfold SymbolsApi.deliverAll. cbn [fold_left].
    fold (SymbolsApi.deliverAll rest
            (SymbolsApi.onBestPerformerFound (fst ev) (snd ev) store)).
    unfold lastTaken. cbn [fold_left].
    fold (lastTaken (if accepted (snd ev)
                     then SymbolsApi.dateNow (fst ev) else t) rest).
    rewrite accepted_step.
    assert (Hf : filter (fun ev => accepted (snd ev)) (ev :: rest)
                 = if accepted (snd ev)
                   then ev :: filter (fun ev => accepted (snd ev)) rest
                   else filter (fun ev => accepted (snd ev)) rest)
      by reflexivity.
    rewrite Hf. clear Hf.
    destruct (accepted (snd ev)) eqn:Hacc.
    + rewrite (IH (SymbolsApi.dateNow (fst ev))); [| assumption |].
      * cbn [SymbolsApi.symbolHistory map rev].
        rewrite <- app_assoc. cbn [app].
        pose proof (lastTaken_ordered _ _ Hrest) as Hlast.
        rewrite !filter_app.
        replace (symbolDataOf (fst ev, snd ev)) with (symbolDataOf ev)
          by (now destruct ev).
        rewrite filter_newer_newer by lia. reflexivity.
      * cbn [SymbolsApi.symbolHistory].
        symmetry. apply filter_newer_newer. lia.
    + apply (IH t); [|assumption].
      apply clockOrdered_weaken with (SymbolsApi.dateNow (fst ev));
        assumption.
Qed.

Lemma deliverAll_current events :
  forall store,
    SymbolsApi.currentSymbol (SymbolsApi.deliverAll events store)
    = match rev (filter (fun ev => accepted (snd ev)) events) with
      | ev :: _ => Some (symbolDataOf ev)
      | [] => SymbolsApi.currentSymbol store
      end.
Proof.
  induction events as [|ev rest IH] using rev_ind; intros store.
  - reflexivity.
  - unfold SymbolsApi.deliverAll. rewrite fold_left_app. cbn [fold_left].
    fold (SymbolsApi.deliverAll rest store).
    rewrite filter_app, rev_app_distr. cbn [filter].
    rewrite accepted_step.
    destruct (accepted (snd ev)); cbn [rev app].
    + cbn [SymbolsApi.currentSymbol]. now destruct ev.
    + apply IH.
Qed.

End History.

(** X12.  What [/api/symbols] serves.  With a clock that does not run
    backwards, the history is the events the listener took, the newest
    first, as far as they are stamped later than 24 hours before the
    last event taken; current is the last event taken. *)
Theorem symbols_history_window :
  forall (events : list (SymbolsApi.Clock * Payload)) (t0 : Z),
    clockOrdered t0 events ->
    let taken := filter (fun ev => accepted (snd ev)) events in
    let store := SymbolsApi.deliverAll events SymbolsApi.store0 in
    snd (SymbolsApi.getSymbols store)
    = filter (newerThan (lastTaken t0 events - dayMs))
        (rev (map symbolDataOf taken))
    /\ fst (SymbolsApi.getSymbols store)
       = match rev taken with
         | ev :: _ => Some (symbolDataOf ev)
         | [] => None
         end.
Proof.
  intros events t0 Hord taken store. split.
  - unfold SymbolsApi.getSymbols. cbn [snd]. unfold store.
    rewrite (deliverAll_history events t0); [| assumption | reflexivity].
    cbn [SymbolsApi.symbolHistory SymbolsApi.store0]. now rewrite app_nil_r.
  - unfold SymbolsApi.getSymbols. cbn [fst]. unfold store.
    now rewrite deliverAll_current.
Qed.

Lemma twoEvents_ordered :
  clockOrdered 0 [eventAt 1000; eventAt 90000000].
Proof. cbn. lia. Defined.

Lemma symbols_history_window_witness :
  clockOrdered 0 [eventAt 1000; eventAt 90000000]
  /\ snd (SymbolsApi.getSymbols
            (SymbolsApi.deliverAll [eventAt 1000; eventAt 90000000]
               SymbolsApi.store0))
     = [symbolDataOf (eventAt 90000000)].
Proof.
  split; [exact twoEvents_ordered|].
  exact (proj1 (symbols_history_window [eventAt 1000; eventAt 90000000] 0
                  twoEvents_ordered)).
Defined.

Section Listener.

Lemma publishable_truthy result :
  publishable result = true -> JS.truthy (res_symbol result) = true.
Proof. unfold publishable. now intros [_ H]%andb_true_iff. Qed.

Lemma publishable_no_error result :
  publishable result = true -> res_hasError result = false.
Proof.
  unfold publishable. intros [H _]%andb_true_iff.
  now apply negb_true_iff in H.
Qed.

End Listener.

(** X13.  Every event that either server emits passes the test of the
    listener of [src/unnamed/part_000]: it becomes the current symbol
    and, unless stamped 24 hours before the listener's clock or
    earlier, the head of the history. *)
Theorem emitted_events_accepted :
  forall (env : Env) (st : SymbolScanner) (p : Payload),
    In (Emit p) (actions (Server.processMinute env st))
    \/ In (Emit p) (actions (Part000.processMinute env st)) ->
    accepted p = true
    /\ forall clock store,
         SymbolsApi.getSymbols
           (SymbolsApi.onBestPerformerFound clock p store)
         = (Some (symbolDataOf (clock, p)),
            filter (newerThan (SymbolsApi.dateNow clock - dayMs))
              (symbolDataOf (clock, p) :: SymbolsApi.symbolHistory store)).
Proof.
  intros env st p Hin.
  assert (Hacc : accepted p = true).
  { destruct Hin as [Hin | Hin].
    - rewrite server_actions in Hin.
      apply in_app_or in Hin as [Hin | Hin].
      { destruct (getSeconds (now env) =? 0);
          [destruct Hin as [H | []]; discriminate | destruct Hin]. }
      apply in_app_or in Hin as [Hin | Hin].
      { destruct (getSeconds (now env) <? 59);
          [destruct Hin as [H | [H | []]]; discriminate | destruct Hin]. }
      unfold Server.finalizePhase in Hin.
      destruct (getSeconds (now env) =? 59); [|destruct Hin].
      destruct Hin as [H | Hin]; [discriminate|].
      destruct (publishable (findBestPerformer (tickState env st))) eqn:Hp;
        [|destruct Hin].
      destruct Hin as [H | []]. injection H as <-.
      unfold accepted, Server.payload.
      cbn [pl_symbol pl_hasError JSValue.truthyBool].
      rewrite (publishable_truthy _ Hp), (publishable_no_error _ Hp).
      reflexivity.
    - rewrite part000_actions in Hin.
      apply in_app_or in Hin as [Hin | Hin].
      { destruct (getSeconds (now env) =? 0);
          [destruct Hin as [H | []]; discriminate | destruct Hin]. }
      apply in_app_or in Hin as [Hin | Hin].
      { destruct (getSeconds (now env) <? 59);
          [destruct Hin as [H | [H | []]]; discriminate | destruct Hin]. }
      unfold Part000.finalizePhase in Hin.
      destruct (getSeconds (now env) =? 59); [|destruct Hin].
      destruct (publishable (findBestPerformer (tickState env st))) eqn:Hp.
      + destruct (lookup env) as [e | l]; cbn [snd] in Hin.
        * destruct Hin as [H | [H | []]]; discriminate.
        * destruct (find _ l) as [ticker|]; cbn [snd] in Hin.
          -- destruct Hin as [H | [H | [H | []]]]; try discriminate.
             injection H as <-.
             unfold accepted, Part000.payload.
             cbn [pl_symbol pl_hasError JSValue.truthyBool].
             rewrite (publishable_truthy _ Hp). reflexivity.
          -- destruct Hin as [H | [H | []]]; discriminate.
      + destruct Hin as [H | []]; discriminate. }
  split; [exact Hacc|].
  intros clock store. rewrite accepted_step, Hacc. reflexivity.
Qed.

Lemma emitted_events_accepted_witness :
  In (Emit (Part000.payload (findBestPerformer threeScored) quoteA))
    (actions (Part000.processMinute lastWithA threeScored))
  /\ accepted (Part000.payload (findBestPerformer threeScored) quoteA)
     = true.
Proof.
  assert (Hin : In (Emit (Part000.payload (findBestPerformer threeScored)
                            quoteA))
                  (actions (Part000.processMinute lastWithA threeScored)))
    by (right; right; left; reflexivity).
  split; [exact Hin|].
  exact (proj1 (emitted_events_accepted lastWithA threeScored _
                  (or_intror Hin))).
Defined.

(** ** Starting and stopping *)

Section Timer.

Lemma clearInterval_other id (l : list positive) :
  ~ In id l -> filter (fun i => negb (Pos.eqb i id)) l = l.
Proof.
  intros H. induction l as [|x l IH]; [reflexivity|].
  cbn [filter].
  destruct (Pos.eqb_spec x id) as [-> | Hne].
  - exfalso. apply H. now left.
  - cbn [negb]. rewrite IH; [reflexivity|].
    intros Hi. apply H. now right.
Qed.

Lemma call_invariant others c dw :
  timerInvariant others dw -> timerInvariant others (call c dw).
Proof.
  destruct dw as [d w]. unfold timerInvariant. cbn [fst snd].
  intros [Hothers Hd].
  destruct c; cbn [call].
  - unfold start.
    destruct (intervalId d) as [id|] eqn:Hid.
    + destruct Hd as (Hrun & Hlt & Hnot & Hact).
      rewrite Hrun. cbn [negb fst snd]. rewrite Hid. auto.
    + destruct Hd as (Hrun & Hact).
      rewrite Hrun. cbn [negb setInterval fst snd intervalId isRunning
                         nextTimer activeTimers].
      split.
      * intros i Hi. specialize (Hothers i Hi). lia.
      * refine (conj eq_refl (conj _ (conj _ _))).
        -- lia.
        -- intros Hin. specialize (Hothers _ Hin). lia.
        -- now rewrite Hact.
  - unfold stop.
    destruct (intervalId d) as [id|] eqn:Hid.
    + destruct Hd as (Hrun & Hlt & Hnot & Hact).
      rewrite Hrun. cbn [fst snd intervalId isRunning clearInterval
                         nextTimer activeTimers].
      split; [assumption|]. split; [reflexivity|].
      rewrite Hact. cbn [filter]. rewrite Pos.eqb_refl. cbn [negb].
      now apply clearInterval_other.
    + cbn [fst snd]. rewrite Hid. auto.
Qed.

Lemma calls_invariant others cs :
  forall dw, timerInvariant others dw -> timerInvariant others (calls cs dw).
Proof.
  induction cs as [|c cs IH]; intros dw H; [exact H|].
  unfold calls. cbn [fold_left]. apply IH. now apply call_invariant.
Qed.

End Timer.

(** X14.  Whatever calls of [start] and [stop] were made, the active
    timers are those of the rest of the program and, exactly when the
    scanner runs, one timer more, the one the scanner remembers; a
    [stop] then leaves the timers of the rest of the program. *)
Theorem start_stop_one_timer :
  forall (cs : list Call) (w : Timers),
    handedOut w ->
    let '(d, w') := calls cs (idle, w) in
    activeTimers w'
    = match intervalId d with
      | Some id => id :: activeTimers w
      | None => activeTimers w
      end
    /\ (isRunning d = true <-> intervalId d <> None)
    /\ (forall id, intervalId d = Some id -> ~ In id (activeTimers w))
    /\ activeTimers (snd (stop (d, w'))) = activeTimers w.
Proof.
  intros cs w Hw.
  assert (Hinv : timerInvariant (activeTimers w) (calls cs (idle, w))).
  { apply calls_invariant. split; [exact Hw|]. cbn. auto. }
  destruct (calls cs (idle, w)) as [d w'].
  destruct Hinv as [Hothers Hd]. cbn [fst snd] in *.
  pose proof (call_invariant (activeTimers w) CallStop (d, w')) as Hstop.
  unfold timerInvariant in Hstop. cbn [fst snd call] in Hstop.
  destruct (intervalId d) as [id|] eqn:Hid.
  - destruct Hd as (Hrun & Hlt & Hnot & Hact).
    refine (conj Hact (conj _ (conj _ _))).
    + split; [discriminate | auto].
    + intros id' [= <-]. exact Hnot.
    + unfold stop. rewrite Hid, Hrun.
      cbn [snd clearInterval activeTimers]. rewrite Hact.
      cbn [filter]. rewrite Pos.eqb_refl. cbn [negb].
      now apply clearInterval_other.
  - destruct Hd as (Hrun & Hact).
    refine (conj Hact (conj _ (conj _ _))).
    + split; [rewrite Hrun; discriminate | congruence].
    + discriminate.
    + unfold stop. rewrite Hid. exact Hact.
Qed.

Lemma twoTimers_handedOut : handedOut twoTimers.
Proof. intros i [<- | [<- | []]]; reflexivity. Defined.

Lemma start_stop_one_timer_witness :
  handedOut twoTimers
  /\ activeTimers
       (snd (calls [CallStart; CallStart; CallStop; CallStart]
               (idle, twoTimers)))
     = [4; 1; 2]%positive.
Proof.
  split; [exact twoTimers_handedOut|].
  exact (proj1 (start_stop_one_timer
                  [CallStart; CallStart; CallStop; CallStart] twoTimers
                  twoTimers_handedOut)).
Defined.

(** ** Rejected promises *)

Section Rejection.

Lemma part000_rejected_59 env st e :
  getSeconds (now env) = 59 ->
  rejected (Part000.processMinute env st) = Some e
  <-> publishable (findBestPerformer st) = true /\ lookupFails env st e.
Proof.
  intros Hs. rewrite part000_actions_59 by assumption. cbn [rejected].
  unfold Part000.finalizePhase, lookupFails. cbn [Z.eqb Pos.eqb].
  destruct (publishable (findBestPerformer st)).
  - destruct (lookup env) as [e' | l]; cbn [fst].
    + split.
      * intros [= ->]. auto.
      * intros [_ [[= ->] | (_ & l & [=] & _)]]. reflexivity.
    + destruct (find _ l) as [ticker|] eqn:Hfind; cbn [fst].
      * split; [discriminate|].
        intros [_ [[=] | (_ & l' & [= <-] & H)]]. congruence.
      * split.
        -- intros [= <-]. split; [reflexivity|]. right. eauto.
        -- intros [_ [[=] | (-> & _)]]. reflexivity.
  - cbn [fst]. split; [discriminate | intros [[=] _]].
Qed.

End Rejection.

(** X15.  When the promise of a tick rejects.  That of [src/server.js]
    never does.  That of [src/unnamed/part_000] rejects exactly at a
    second 59 with the error flag down and a winner, when the snapshot
    read fails or arrives without the winner; the tick then emits
    nothing, leaves the scanner as it was and the error flag down. *)
Theorem rejection_only_at_lookup :
  forall (env : Env) (st : SymbolScanner),
    rejected (Server.processMinute env st) = None
    /\ (forall e,
           rejected (Part000.processMinute env st) = Some e
           <-> getSeconds (now env) = 59
               /\ hasErrorThisMinute st = false
               /\ JS.truthy (res_symbol (findBestPerformer st)) = true
               /\ lookupFails env st e)
    /\ (forall e,
           rejected (Part000.processMinute env st) = Some e ->
           scanner (Part000.processMinute env st) = st
           /\ actions (Part000.processMinute env st)
              = [CallFindBestPerformer; ReadSnapshot]).
Proof.
  intros env st. split; [apply server_never_rejects|].
  assert (Hiff : forall e,
             rejected (Part000.processMinute env st) = Some e
             <-> getSeconds (now env) = 59
                 /\ publishable (findBestPerformer st) = true
                 /\ lookupFails env st e).
  { intros e. destruct (Z.eq_dec (getSeconds (now env)) 59) as [Hs | Hs].
    - rewrite (part000_rejected_59 env st e Hs). tauto.
    - split; [|tauto]. intros Hrej. exfalso.
      assert (H0 : 0 <= getSeconds (now env) < 60)
        by (unfold getSeconds; apply Z.mod_pos_bound; lia).
      rewrite part000_accumulate_never_rejects in Hrej by lia.
      discriminate. }
  split.
  - intros e. rewrite Hiff, publishable_iff. tauto.
  - intros e Hrej. apply Hiff in Hrej as (Hs & Hp & Hfail).
    rewrite part000_actions_59 by assumption. cbn [scanner actions].
    split; [reflexivity|].
    unfold Part000.finalizePhase. cbn [Z.eqb Pos.eqb]. rewrite Hp.
    destruct Hfail as [-> | (_ & l & -> & ->)]; reflexivity.
Qed.

Lemma rejection_only_at_lookup_witness :
  getSeconds (now lookupDown) = 59
  /\ rejected (Part000.processMinute lookupDown threeScored)
     = Some connectionReset.
Proof.
  split; [reflexivity|].
  apply (proj2 (proj1 (proj2 (rejection_only_at_lookup lookupDown
                                threeScored)) connectionReset)).
  refine (conj eq_refl (conj eq_refl (conj eq_refl _))).
  left. reflexivity.
Defined.

(** ** The window within a minute *)

Section Window.
Import JSMap JSMapFacts.






End Window.



